(** * Content-fidelity verification of archived articles

    A shallow embedding of the verification script of the meta-theory
    archive ([scripts/verify.mjs], with [scripts/articles-config.mjs]):
    the two text normalizers, the per-item matchers and the report
    aggregator [verifyMarkdownContent], followed by the properties that
    the specification states about them.

    JavaScript strings are sequences of UTF-16 code units; they are
    modelled as lists of code units, a code unit being a number. *)

From Stdlib Require Import List NArith ZArith QArith Bool Arith Lia.
From Stdlib Require String Ascii.
Import ListNotations String.StringSyntax.
Open Scope nat_scope.

Set Implicit Arguments.

(** ** Strings *)

Module JS.

Definition CodeUnit := N.
Bind Scope N_scope with CodeUnit.
Definition JSString := list CodeUnit.

(** An ASCII literal as a JavaScript string. *)
Definition lit (s : String.string) : JSString :=
  List.map Ascii.N_of_ascii (String.list_ascii_of_string s).
Arguments lit s%_string_scope.

Definition inRange (lo hi c : CodeUnit) : bool :=
  (N.leb lo c && N.leb c hi)%bool.

(** The characters matched by [\s] and removed by [String.prototype.trim]:
    WhiteSpace and LineTerminator of ECMAScript. *)
Definition isWhiteSpace (c : CodeUnit) : bool :=
  (inRange 9 13 c || N.eqb c 32 || N.eqb c 0xA0 || N.eqb c 0x1680
   || inRange 0x2000 0x200A c || N.eqb c 0x2028 || N.eqb c 0x2029
   || N.eqb c 0x202F || N.eqb c 0x205F || N.eqb c 0x3000
   || N.eqb c 0xFEFF)%bool.

(** The characters that [.] does not match. *)
Definition isLineTerminator (c : CodeUnit) : bool :=
  (N.eqb c 10 || N.eqb c 13 || N.eqb c 0x2028 || N.eqb c 0x2029)%bool.

(** [\d] *)
Definition isDigit (c : CodeUnit) : bool := inRange 48 57 c.

Fixpoint dropWhile (p : CodeUnit -> bool) (s : JSString) : JSString :=
  match s with
  | [] => []
  | c :: s' => if p c then dropWhile p s' else s
  end.

Definition trimStart (s : JSString) : JSString := dropWhile isWhiteSpace s.
Definition trimEnd (s : JSString) : JSString := rev (dropWhile isWhiteSpace (rev s)).

(** [s.trim()] *)
Definition trim (s : JSString) : JSString := trimEnd (trimStart s).

(** [pat] is a prefix of [s], code units compared with [eqc]. *)
Fixpoint startsWith (eqc : CodeUnit -> CodeUnit -> bool) (pat s : JSString) : bool :=
  match pat, s with
  | [], _ => true
  | _ :: _, [] => false
  | p :: pat', c :: s' => (eqc p c && startsWith eqc pat' s')%bool
  end.

(** [s.includes(sub)] *)
Fixpoint includes (s sub : JSString) : bool :=
  (startsWith N.eqb sub s ||
   match s with
   | [] => false
   | _ :: s' => includes s' sub
   end)%bool.

(** [s.substring(0, n)] *)
Definition substring0 (n : nat) (s : JSString) : JSString := firstn n s.

(** [s.split(sep)] for a separator of one code unit: the pieces between
    the occurrences of [sep]; never empty. *)
Fixpoint split (sep : CodeUnit) (s : JSString) : list JSString :=
  match s with
  | [] => [[]]
  | c :: s' =>
      if N.eqb c sep then [] :: split sep s'
      else match split sep s' with
           | [] => [[c]]
           | w :: ws => (c :: w) :: ws
           end
  end.

(** [s.replace(/[...]/g, rep)] for a character class [p]. *)
Definition replaceClass (p : CodeUnit -> bool) (rep s : JSString) : JSString :=
  flat_map (fun c => if p c then rep else [c]) s.

(** [s.replace(/\s+/g, ' ')]: [inRun] tells that the previous code unit
    belonged to the run of white space being replaced. *)
Fixpoint collapseFrom (inRun : bool) (s : JSString) : JSString :=
  match s with
  | [] => []
  | c :: s' =>
      if isWhiteSpace c
      then if inRun then collapseFrom true s' else 32%N :: collapseFrom true s'
      else c :: collapseFrom false s'
  end.

Definition collapseSpaces (s : JSString) : JSString := collapseFrom false s.

(** [s.replace(/pat/g, rep)] for a literal, non-empty pattern: matches are
    found from left to right and do not overlap; [skip] counts the code
    units of the current match that are still to be passed over. *)
Fixpoint replaceFrom (eqc : CodeUnit -> CodeUnit -> bool) (pat rep : JSString)
    (skip : nat) (s : JSString) : JSString :=
  match s with
  | [] => []
  | c :: s' =>
      match skip with
      | S k => replaceFrom eqc pat rep k s'
      | O =>
          if startsWith eqc pat (c :: s')
          then rep ++ replaceFrom eqc pat rep (length pat - 1) s'
          else c :: replaceFrom eqc pat rep 0 s'
      end
  end.

Definition replaceAll (pat rep s : JSString) : JSString :=
  replaceFrom N.eqb pat rep 0 s.

(** The lower case of one code unit. The table holds the capital
    letters of Basic Latin, of the Latin-1 Supplement and of the Cyrillic
    block up to U+042F, and U+0130, whose lower case is two code units
    long; any other code unit is returned unchanged. Unicode has capital
    letters outside the table, characters made of two surrogates, and a
    capital sigma whose lower case depends on its neighbours: the table
    stands for [toLowerCase] on the texts of [knownCase] below, which
    have none of them. *)
Definition lowerUnit (c : CodeUnit) : JSString :=
  if inRange 0x41 0x5A c then [c + 32]%N
  else if (inRange 0xC0 0xDE c && negb (N.eqb c 0xD7))%bool then [c + 32]%N
  else if N.eqb c 0x130 then [0x69; 0x307]%N
  else if inRange 0x400 0x40F c then [c + 80]%N
  else if inRange 0x410 0x42F c then [c + 32]%N
  else [c].

(** [s.toLowerCase()], code unit by code unit. *)
Definition toLowerCase (s : JSString) : JSString := flat_map lowerUnit s.

(** Canonicalization of a code unit under the [i] flag of a regular
    expression without the [u] flag: the upper case of the code unit when
    that is one code unit, never from outside ASCII into ASCII. Same
    coverage as [lowerUnit], with the Cyrillic Extended-C letters that
    share the upper case of a basic Cyrillic letter. *)
Definition canonicalize (c : CodeUnit) : CodeUnit :=
  if inRange 0x61 0x7A c then (c - 32)%N
  else if (inRange 0xE0 0xFE c && negb (N.eqb c 0xF7))%bool then (c - 32)%N
  else if inRange 0x430 0x44F c then (c - 32)%N
  else if inRange 0x450 0x45F c then (c - 80)%N
  else if N.eqb c 0x1C80 then 0x412%N
  else if N.eqb c 0x1C81 then 0x414%N
  else if N.eqb c 0x1C82 then 0x41E%N
  else if N.eqb c 0x1C83 then 0x421%N
  else if inRange 0x1C84 0x1C85 c then 0x422%N
  else if N.eqb c 0x1C86 then 0x42A%N
  else c.

Definition eqIgnoreCase (p c : CodeUnit) : bool :=
  N.eqb (canonicalize p) (canonicalize c).

End JS.

Import JS.

(** ** The normalizers *)

Definition isVariousSpace (c : CodeUnit) : bool :=
  (inRange 0x2000 0x200F c || inRange 0x2028 0x202F c)%bool.
Definition isNbsp (c : CodeUnit) : bool := N.eqb c 0xA0.
Definition isApostrophe (c : CodeUnit) : bool := N.eqb c 39.
Definition isDoubleQuote (c : CodeUnit) : bool := N.eqb c 34.
Definition isTimes (c : CodeUnit) : bool := N.eqb c 0xD7.
Definition isArrow (c : CodeUnit) : bool := (N.eqb c 0x2192 || N.eqb c 0x21A6)%bool.
Definition isMinus (c : CodeUnit) : bool := N.eqb c 0x2212.

Definition backslash : CodeUnit := 92%N.
Definition dollar : CodeUnit := 36%N.
Definition caret : CodeUnit := 94%N.

(** [normalizeText], one definition per call of the chain. *)
Definition normalizeText (text : JSString) : JSString :=
  let s := trim text in
  let s := collapseSpaces s in
  let s := replaceClass isVariousSpace (lit " ") s in
  let s := replaceClass isNbsp (lit " ") s in
  let s := replaceClass isApostrophe (lit "'") s in
  let s := replaceClass isDoubleQuote [34%N] s in
  let s := replaceClass isTimes (lit "x") s in
  let s := replaceAll (backslash :: lit "times") (lit "x") s in
  let s := replaceClass isArrow (lit "->") s in
  let s := replaceAll (backslash :: lit "to") (lit "->") s in
  let s := replaceClass isMinus (lit "-") s in
  let s := replaceAll [dollar; dollar] [] s in
  let s := replaceAll [dollar] [] s in
  let s := replaceAll (backslash :: lit "subseteq") [0x2286%N] s in
  let s := replaceFrom eqIgnoreCase (backslash :: lit "mathbb{n}_0")
             [0x2115%N; 0x2080%N] 0 s in
  let s := replaceAll (backslash :: lit "in") [0x2208%N] s in
  let s := replaceAll (backslash :: lit "emptyset") [0x2205%N] s in
  let s := replaceAll (lit "^2") [0xB2%N] s in
  let s := replaceAll (lit "^n") [0x207F%N] s in
  toLowerCase s.

(** [normalizeCode] *)
Definition normalizeCode (text : JSString) : JSString :=
  let s := trim text in
  let s := collapseSpaces s in
  let s := replaceClass isVariousSpace (lit " ") s in
  let s := replaceClass isNbsp (lit " ") s in
  let s := replaceClass isTimes (lit "x") s in
  let s := replaceAll (backslash :: lit "times") (lit "x") s in
  let s := replaceAll [dollar; dollar] [] s in
  let s := replaceAll [dollar] [] s in
  toLowerCase s.

(** ** Numbers

    The rates of the script are IEEE doubles obtained by dividing two
    counts. A quotient of two counts below 2^48 compares with the
    literals [0.6] and [0.85] exactly as the rational quotient compares
    with 6/10 and 85/100, so a finite number is modelled by a rational;
    [NaN] and [Infinity] are kept apart, as the division produces them
    when the divisor is zero. *)

Inductive JSNumber : Type :=
  | Num (q : Q)
  | Infinity
  | NaN.

(** [p / t] for two counts. *)
Definition jsDiv (p t : nat) : JSNumber :=
  match t, p with
  | O, O => NaN
  | O, S _ => Infinity
  | S _, _ => Num (inject_Z (Z.of_nat p) / inject_Z (Z.of_nat t))
  end.

(** [x >= r] for a finite literal [r]. *)
Definition jsGe (x : JSNumber) (r : Q) : bool :=
  match x with
  | Num q => Qle_bool r q
  | Infinity => true
  | NaN => false
  end.

(** [x === y] on numbers: [NaN] is equal to nothing. *)
Definition jsNumEq (x y : JSNumber) : Prop :=
  match x, y with
  | Num a, Num b => a == b
  | Infinity, Infinity => True
  | _, _ => False
  end.

(** ** Regular expressions of the image checks *)

Module Regex.

(** A literal piece of a pattern: the rest of the input after it. *)
Fixpoint literalBy (eqc : CodeUnit -> CodeUnit -> bool) (pat s : JSString)
    : option JSString :=
  match pat, s with
  | [], _ => Some s
  | _ :: _, [] => None
  | p :: pat', c :: s' => if eqc p c then literalBy eqc pat' s' else None
  end.

(** Under the [i] flag, and without it. *)
Definition literal := literalBy eqIgnoreCase.
Definition literalExact := literalBy N.eqb.

(** [p+], greedy; what follows it in the patterns below never starts
    with a code unit of [p], so no shorter repetition can succeed. *)
Definition plus (p : CodeUnit -> bool) (s : JSString) : option JSString :=
  match s with
  | c :: s' => if p c then Some (dropWhile p s') else None
  | [] => None
  end.

Definition bind (o : option JSString) (k : JSString -> option JSString) :=
  match o with
  | Some s => k s
  | None => None
  end.

Definition orElse (a b : option JSString) : option JSString :=
  match a with
  | Some _ => a
  | None => b
  end.

Notation "x <- a ;; b" := (bind a (fun x => b))
  (at level 61, a at next level, right associativity).

Definition cyrillicRis : JSString := [0x420; 0x438; 0x441]%N.
Definition cyrillicRisunok : JSString :=
  [0x420; 0x438; 0x441; 0x443; 0x43D; 0x43E; 0x43A]%N.

(** [\s*\d+\]\(images\/figure-\d+\.(png|jpg)\)] *)
Definition figureTail (s : JSString) : option JSString :=
  s <- plus isDigit (dropWhile isWhiteSpace s) ;;
  s <- literal (lit "](images/figure-") s ;;
  s <- plus isDigit s ;;
  s <- literal (lit ".") s ;;
  s <- orElse (literal (lit "png") s) (literal (lit "jpg") s) ;;
  literal (lit ")") s.

(** [\.?], greedy; when the rest fails after the dot it also fails before
    it, because the rest cannot start with a dot. *)
Definition optionalDot (s : JSString) : JSString :=
  match s with
  | c :: s' => if N.eqb c 46 then s' else s
  | [] => s
  end.

(** One match of the figure pattern at the start of [s]: the input that
    follows the match. The three alternatives are tried in order. *)
Definition figureAt (s : JSString) : option JSString :=
  s <- literal (lit "![") s ;;
  orElse (s1 <- literal (lit "Figure") s ;; figureTail s1)
    (orElse (s1 <- literal cyrillicRis s ;; figureTail (optionalDot s1))
            (s1 <- literal cyrillicRisunok s ;; figureTail s1)).

(** [markdownText.match(figurePattern) || []] with the [g] flag: the
    matched substrings, from left to right, without overlap. *)
Fixpoint figureMatchesFrom (skip : nat) (s : JSString) : list JSString :=
  match s with
  | [] => []
  | c :: s' =>
      match skip with
      | S k => figureMatchesFrom k s'
      | O =>
          match figureAt (c :: s') with
          | Some rest =>
              let n := length (c :: s') - length rest in
              firstn n (c :: s') :: figureMatchesFrom (n - 1) s'
          | None => figureMatchesFrom 0 s'
          end
      end
  end.

Definition figureMatches (s : JSString) : list JSString := figureMatchesFrom 0 s.

(** [.*?\)]: a closing parenthesis before the end of the line. *)
Fixpoint closesOnLine (s : JSString) : bool :=
  match s with
  | [] => false
  | c :: s' =>
      if N.eqb c 41 then true
      else if isLineTerminator c then false
      else closesOnLine s'
  end.

(** [\]\(https?:\/\/.*?\)] *)
Definition linkTail (s : JSString) : bool :=
  match literalExact (lit "](http") s with
  | Some s1 =>
      let s2 := match s1 with
                | c :: s' => if N.eqb c 115 then s' else s1
                | [] => s1
                end in
      match literalExact (lit "://") s2 with
      | Some s3 => closesOnLine s3
      | None => false
      end
  | None => false
  end.

(** [!\[.*?] followed by [linkTail]: the shortest stretch of the line
    after which the tail matches. *)
Fixpoint lazyLinkTail (s : JSString) : bool :=
  (linkTail s ||
   match s with
   | [] => false
   | c :: s' => if isLineTerminator c then false else lazyLinkTail s'
   end)%bool.

Definition imageAt (s : JSString) : bool :=
  match literalExact (lit "![") s with
  | Some s1 => lazyLinkTail s1
  | None => false
  end.

(** [(markdownText.match(imagePattern) || []).length > 0]: the pattern
    matches somewhere. *)
Fixpoint hasImageMatch (s : JSString) : bool :=
  (imageAt s ||
   match s with
   | [] => false
   | _ :: s' => hasImageMatch s'
   end)%bool.

End Regex.

(** ** Data model *)

Record Heading := { level : JSString; text : JSString }.

Record Link := { linkText : JSString; href : JSString }.

(** The content extracted from the web page. *)
Record WebContent := {
  title : JSString;
  headings : list Heading;
  paragraphs : list JSString;
  codeBlocks : list JSString;
  formulas : list JSString;
  listItems : list JSString;
  links : list Link;
  figures : list nat
}.

(** The fields of an entry of [ARTICLES] that the verification reads;
    [expectedFigures] is absent from the entries without local images. *)
Record Article := {
  hasLocalImages : bool;
  expectedFigures : option nat
}.

Module Missing.
Record t := {
  title : bool;
  headings : list JSString;
  paragraphs : list JSString;
  codeBlocks : list JSString;
  formulas : list JSString;
  listItems : list JSString;
  images : nat
}.
End Missing.

Record Report := {
  totalChecks : nat;
  passedChecks : nat;
  passRate : JSNumber;
  hasMissingContent : bool;
  missing : Missing.t;
  success : bool
}.

(** ** The checks *)

(** The counters and the [missing] object that the checks update. *)
Record Checks := {
  total : nat;
  passed : nat;
  miss : Missing.t
}.

Definition noneMissing : Missing.t :=
  {| Missing.title := false; Missing.headings := []; Missing.paragraphs := [];
     Missing.codeBlocks := []; Missing.formulas := []; Missing.listItems := [];
     Missing.images := 0 |}.

Definition start : Checks := {| total := 0; passed := 0; miss := noneMissing |}.

(** [totalChecks++; passedChecks++] *)
Definition pass (st : Checks) : Checks :=
  {| total := S (total st); passed := S (passed st); miss := miss st |}.

(** [totalChecks++] and the update [f] of [missing]. *)
Definition fail (f : Missing.t -> Missing.t) (st : Checks) : Checks :=
  {| total := S (total st); passed := passed st; miss := f (miss st) |}.

Definition setTitle (m : Missing.t) : Missing.t :=
  {| Missing.title := true; Missing.headings := Missing.headings m;
     Missing.paragraphs := Missing.paragraphs m;
     Missing.codeBlocks := Missing.codeBlocks m;
     Missing.formulas := Missing.formulas m;
     Missing.listItems := Missing.listItems m; Missing.images := Missing.images m |}.

Definition pushHeading (x : JSString) (m : Missing.t) : Missing.t :=
  {| Missing.title := Missing.title m; Missing.headings := Missing.headings m ++ [x];
     Missing.paragraphs := Missing.paragraphs m;
     Missing.codeBlocks := Missing.codeBlocks m;
     Missing.formulas := Missing.formulas m;
     Missing.listItems := Missing.listItems m; Missing.images := Missing.images m |}.

Definition pushParagraph (x : JSString) (m : Missing.t) : Missing.t :=
  {| Missing.title := Missing.title m; Missing.headings := Missing.headings m;
     Missing.paragraphs := Missing.paragraphs m ++ [x];
     Missing.codeBlocks := Missing.codeBlocks m;
     Missing.formulas := Missing.formulas m;
     Missing.listItems := Missing.listItems m; Missing.images := Missing.images m |}.

Definition pushCodeBlock (x : JSString) (m : Missing.t) : Missing.t :=
  {| Missing.title := Missing.title m; Missing.headings := Missing.headings m;
     Missing.paragraphs := Missing.paragraphs m;
     Missing.codeBlocks := Missing.codeBlocks m ++ [x];
     Missing.formulas := Missing.formulas m;
     Missing.listItems := Missing.listItems m; Missing.images := Missing.images m |}.

Definition pushListItem (x : JSString) (m : Missing.t) : Missing.t :=
  {| Missing.title := Missing.title m; Missing.headings := Missing.headings m;
     Missing.paragraphs := Missing.paragraphs m;
     Missing.codeBlocks := Missing.codeBlocks m;
     Missing.formulas := Missing.formulas m;
     Missing.listItems := Missing.listItems m ++ [x]; Missing.images := Missing.images m |}.

Definition setImages (n : nat) (m : Missing.t) : Missing.t :=
  {| Missing.title := Missing.title m; Missing.headings := Missing.headings m;
     Missing.paragraphs := Missing.paragraphs m;
     Missing.codeBlocks := Missing.codeBlocks m;
     Missing.formulas := Missing.formulas m;
     Missing.listItems := Missing.listItems m; Missing.images := n |}.

(** One check: [ok] decides, [f] records the failure. *)
Definition check (ok : bool) (f : Missing.t -> Missing.t) (st : Checks) : Checks :=
  if ok then pass st else fail f st.

(** [for (const x of xs) { ... }] over the state of the checks. *)
Definition forEach {A : Type} (body : A -> Checks -> Checks) (xs : list A)
    (st : Checks) : Checks :=
  fold_left (fun st x => body x st) xs st.

(** [x.substring(0, 100) + '...'] *)
Definition preview (x : JSString) : JSString := substring0 100 x ++ lit "...".

Section Matchers.

(** [normalizedMarkdown] and [normalizedMarkdownForCode] *)
Variable normalizedMarkdown : JSString.
Variable normalizedMarkdownForCode : JSString.

Definition titlePresent (t : JSString) : bool :=
  includes normalizedMarkdown (normalizeText t).

Definition headingPresent (h : Heading) : bool :=
  let normalized := normalizeText (text h) in
  includes normalizedMarkdown normalized.

(** [normalized.split(' ').filter(w => w.length > 2)] *)
Definition qualifyingWords (normalized : JSString) : list JSString :=
  filter (fun w => 2 <? length w) (split 32 normalized).

Definition matchingWords (words : list JSString) : list JSString :=
  filter (fun word => includes normalizedMarkdown word) words.

(** [words.length > 0 ? matchingWords.length / words.length : 0] *)
Definition wordMatchRate (normalized : JSString) : JSNumber :=
  let words := qualifyingWords normalized in
  if 0 <? length words
  then jsDiv (length (matchingWords words)) (length words)
  else Num 0.

(** [normalized.length > minLength &&
     normalizedMarkdown.includes(normalized.substring(0, Math.min(prefix, normalized.length)))] *)
Definition substringMatch (minLength prefix : nat) (normalized : JSString) : bool :=
  ((minLength <? length normalized) &&
   includes normalizedMarkdown
     (substring0 (Nat.min prefix (length normalized)) normalized))%bool.

Definition paragraphPresent (paragraph : JSString) : bool :=
  let normalized := normalizeText paragraph in
  (jsGe (wordMatchRate normalized) (6 # 10) || substringMatch 20 50 normalized)%bool.

Definition listItemPresent (item : JSString) : bool :=
  let normalized := normalizeText item in
  (jsGe (wordMatchRate normalized) (6 # 10) || substringMatch 15 40 normalized)%bool.

(** The class [[{}\[\](),;]] *)
Definition isBracket (c : CodeUnit) : bool :=
  (N.eqb c 123 || N.eqb c 125 || N.eqb c 91 || N.eqb c 93
   || N.eqb c 40 || N.eqb c 41 || N.eqb c 44 || N.eqb c 59)%bool.

(** [/^[{}\[\](),;]+$/.test(l)] *)
Definition onlyBrackets (l : JSString) : bool :=
  match l with
  | [] => false
  | _ :: _ => forallb isBracket l
  end.

(** [code.split('\n').map(l => l.trim()).filter(l => l.length > 3 && !/^[{}\[\](),;]+$/.test(l))] *)
Definition significantLines (code : JSString) : list JSString :=
  filter (fun l => ((3 <? length l) && negb (onlyBrackets l))%bool)
    (map trim (split 10 code)).

Definition matchingLines (lines : list JSString) : list JSString :=
  filter (fun line =>
            let normalizedLine := normalizeCode line in
            includes normalizedMarkdownForCode normalizedLine) lines.

(** [lines.length > 0 ? matchingLines.length / lines.length : 1] *)
Definition lineMatchRate (code : JSString) : JSNumber :=
  let lines := significantLines code in
  if 0 <? length lines
  then jsDiv (length (matchingLines lines)) (length lines)
  else Num 1.

Definition codeBlockPresent (code : JSString) : bool :=
  let normalizedCode := normalizeCode code in
  (jsGe (lineMatchRate code) (6 # 10)
   || includes normalizedMarkdownForCode normalizedCode)%bool.

(** [[...paragraphs.slice(0, 5), ...paragraphs.slice(-5)]] *)
Definition paragraphsToCheck (ps : list JSString) : list JSString :=
  firstn 5 ps ++ skipn (length ps - 5) ps.

Definition listItemsToCheck (items : list JSString) : list JSString :=
  firstn 10 items.

Definition checkTitle (w : WebContent) (st : Checks) : Checks :=
  match title w with
  | [] => st
  | _ :: _ => check (titlePresent (title w)) setTitle st
  end.

Definition checkHeadings (w : WebContent) : Checks -> Checks :=
  forEach (fun heading => check (headingPresent heading) (pushHeading (text heading)))
    (headings w).

Definition checkParagraphs (w : WebContent) : Checks -> Checks :=
  forEach (fun paragraph =>
             check (paragraphPresent paragraph) (pushParagraph (preview paragraph)))
    (paragraphsToCheck (paragraphs w)).

Definition checkCodeBlocks (w : WebContent) : Checks -> Checks :=
  forEach (fun code => check (codeBlockPresent code) (pushCodeBlock (preview code)))
    (codeBlocks w).

Definition checkListItems (w : WebContent) : Checks -> Checks :=
  forEach (fun item => check (listItemPresent item) (pushListItem (preview item)))
    (listItemsToCheck (listItems w)).

End Matchers.

(** [article.expectedFigures] as a condition, and as a number. *)
Definition declaredFigures (article : Article) : nat :=
  match expectedFigures article with
  | Some n => n
  | None => 0
  end.

(** The figure check of an article with local images, the check of the
    external image references otherwise. *)
Definition checkImages (article : Article) (markdownText : JSString)
    (st : Checks) : Checks :=
  if (hasLocalImages article && (0 <? declaredFigures article))%bool then
    let figureMatches := Regex.figureMatches markdownText in
    if declaredFigures article <=? length figureMatches
    then pass st
    else fail (setImages (declaredFigures article - length figureMatches)) st
  else if negb (hasLocalImages article) then
    if Regex.hasImageMatch markdownText
    then pass st
    else fail (fun m => m) st
  else st.

Definition anyRecorded (m : Missing.t) : bool :=
  existsb (fun arr => 0 <? length arr)
    [Missing.headings m; Missing.paragraphs m; Missing.codeBlocks m;
     Missing.formulas m; Missing.listItems m].

Definition verifyMarkdownContent (article : Article) (webContent : WebContent)
    (markdownText : JSString) : Report :=
  let normalizedMarkdown := normalizeText markdownText in
  let normalizedMarkdownForCode := normalizeCode markdownText in
  let st := checkTitle normalizedMarkdown webContent start in
  let st := checkHeadings normalizedMarkdown webContent st in
  let st := checkParagraphs normalizedMarkdown webContent st in
  let st := checkCodeBlocks normalizedMarkdownForCode webContent st in
  let st := checkListItems normalizedMarkdown webContent st in
  let st := checkImages article markdownText st in
  let passRate := if 0 <? total st then jsDiv (passed st) (total st) else Num 0 in
  let hasMissingContent :=
    (Missing.title (miss st) || (0 <? Missing.images (miss st))
     || anyRecorded (miss st))%bool in
  {| totalChecks := total st;
     passedChecks := passed st;
     passRate := passRate;
     hasMissingContent := hasMissingContent;
     missing := miss st;
     success := (negb hasMissingContent || jsGe passRate (85 # 100))%bool |}.

(** The first five categories of checks, before the image check. *)
Definition contentChecks (webContent : WebContent) (markdownText : JSString) : Checks :=
  let normalizedMarkdown := normalizeText markdownText in
  let normalizedMarkdownForCode := normalizeCode markdownText in
  checkListItems normalizedMarkdown webContent
    (checkCodeBlocks normalizedMarkdownForCode webContent
       (checkParagraphs normalizedMarkdown webContent
          (checkHeadings normalizedMarkdown webContent
             (checkTitle normalizedMarkdown webContent start)))).

Unset Implicit Arguments.

(** * The configuration and the command line *)

(** ** [articles-config.mjs] *)

Module Config.

(** An entry of [ARTICLES]. *)
Record Entry := {
  version : JSString;
  title : JSString;
  titleEnglish : option JSString;
  url : JSString;
  language : JSString;
  archivePath : JSString;
  markdownFile : JSString;
  screenshotFile : JSString;
  imagesDir : JSString;
  hasLocalImages : bool;
  expectedFigures : option nat
}.

End Config.

Definition article_0_0_0 : Config.Entry :=
  {| Config.version := lit "0.0.0";
     Config.title := lit "Math introduction to Deep Theory";
     Config.titleEnglish := None;
     Config.url := lit "https://habr.com/en/articles/658705/";
     Config.language := lit "en";
     Config.archivePath := lit "archive/0.0.0";
     Config.markdownFile := lit "article.md";
     Config.screenshotFile := lit "article.png";
     Config.imagesDir := lit "images";
     Config.hasLocalImages := false;
     Config.expectedFigures := None |}.

Definition article_0_0_1 : Config.Entry :=
  {| Config.version := lit "0.0.1";
     Config.title :=
       [0x413; 0x43B; 0x443; 0x431; 0x43E; 0x43A; 0x430; 0x44F; 0x20;
        0x422; 0x435; 0x43E; 0x440; 0x438; 0x44F; 0x20;
        0x421; 0x432; 0x44F; 0x437; 0x435; 0x439; 0x20]%N ++ lit "0.0.1";
     Config.titleEnglish := Some (lit "Deep Theory of Links 0.0.1");
     Config.url := lit "https://habr.com/ru/articles/804617/";
     Config.language := lit "ru";
     Config.archivePath := lit "archive/0.0.1";
     Config.markdownFile := lit "article.md";
     Config.screenshotFile := lit "article.png";
     Config.imagesDir := lit "images";
     Config.hasLocalImages := false;
     Config.expectedFigures := None |}.

Definition article_0_0_2 : Config.Entry :=
  {| Config.version := lit "0.0.2";
     Config.title := lit "The Links Theory 0.0.2";
     Config.titleEnglish := None;
     Config.url := lit "https://habr.com/en/articles/895896/";
     Config.language := lit "en";
     Config.archivePath := lit "archive/0.0.2";
     Config.markdownFile := lit "article.md";
     Config.screenshotFile := lit "article.png";
     Config.imagesDir := lit "images";
     Config.hasLocalImages := true;
     Config.expectedFigures := Some 13 |}.

(** The object [ARTICLES]: its own properties, in the order of their
    definition. *)
Definition ARTICLES : list (JSString * Config.Entry) :=
  [(lit "0.0.0", article_0_0_0); (lit "0.0.1", article_0_0_1);
   (lit "0.0.2", article_0_0_2)].

(** The names that every object inherits from [Object.prototype]; the
    value of each is a function or an object. *)
Definition objectPrototypeNames : list JSString :=
  [lit "constructor"; lit "__defineGetter__"; lit "__defineSetter__";
   lit "hasOwnProperty"; lit "__lookupGetter__"; lit "__lookupSetter__";
   lit "isPrototypeOf"; lit "propertyIsEnumerable"; lit "toString";
   lit "valueOf"; lit "__proto__"; lit "toLocaleString"].

(** [a === b] on strings. *)
Fixpoint eqString (a b : JSString) : bool :=
  match a, b with
  | [], [] => true
  | x :: a', y :: b' => (N.eqb x y && eqString a' b')%bool
  | _, _ => false
  end.

Fixpoint ownProperty (A : Type) (key : JSString) (object : list (JSString * A))
    : option A :=
  match object with
  | [] => None
  | (k, v) :: rest => if eqString k key then Some v else ownProperty A key rest
  end.

(** What [ARTICLES[version]] can be. *)
Inductive Value : Type :=
  | Configured (entry : Config.Entry)
  | Builtin (name : JSString).

Inductive Error : Type :=
  | UnknownVersion (message : JSString)
  | TypeError
  | Failure (reason : JSString).

Inductive Outcome (A : Type) : Type :=
  | Returns (a : A)
  | Throws (e : Error).

Arguments Returns {A} a.
Arguments Throws {A} e.

(** [Object.keys(ARTICLES)] *)
Definition getAllVersions : list JSString := map fst ARTICLES.

(** [Object.values(ARTICLES)] *)
Definition getAllArticles : list Config.Entry := map snd ARTICLES.

(** [xs.join(sep)] *)
Fixpoint joinWith (sep : JSString) (xs : list JSString) : JSString :=
  match xs with
  | [] => []
  | [x] => x
  | x :: rest => x ++ sep ++ joinWith sep rest
  end.

Definition unknownVersion (version : JSString) : JSString :=
  lit "Unknown article version: " ++ version ++ lit ". Available: "
    ++ joinWith (lit ", ") getAllVersions.

Definition getArticle (version : JSString) : Outcome Value :=
  match ownProperty _ version ARTICLES with
  | Some entry => Returns (Configured entry)
  | None =>
      if existsb (eqString version) objectPrototypeNames
      then Returns (Builtin version)
      else Throws (UnknownVersion (unknownVersion version))
  end.

(** The fields of an entry that [verifyMarkdownContent] reads. *)
Definition articleOf (entry : Config.Entry) : Article :=
  {| hasLocalImages := Config.hasLocalImages entry;
     expectedFigures := Config.expectedFigures entry |}.

(** ** The command line of [verify.mjs] *)

Module Cli.

Record Options := {
  version : option JSString;
  all : bool;
  verbose : bool
}.

End Cli.

(** [arg.startsWith('-')] *)
Definition isOption (arg : JSString) : bool := startsWith N.eqb (lit "-") arg.

(** The body of the loop of [parseArgs]. *)
Definition parseArg (options : Cli.Options) (arg : JSString) : Cli.Options :=
  if eqString arg (lit "--all") then
    {| Cli.version := Cli.version options; Cli.all := true;
       Cli.verbose := Cli.verbose options |}
  else if (eqString arg (lit "--verbose") || eqString arg (lit "-v"))%bool then
    {| Cli.version := Cli.version options; Cli.all := Cli.all options;
       Cli.verbose := true |}
  else if negb (isOption arg) then
    {| Cli.version := Some arg; Cli.all := Cli.all options;
       Cli.verbose := Cli.verbose options |}
  else options.

Definition noOptions : Cli.Options :=
  {| Cli.version := None; Cli.all := false; Cli.verbose := false |}.

(** [parseArgs], on [process.argv.slice(2)]. *)
Definition parseArgs (args : list JSString) : Cli.Options :=
  fold_left parseArg args noOptions.

(** ** [verifyArticle] and [main] *)

Section Script.

(** The world of the script: the directory of the repository, [join] of
    [node:path] on two strings, the file system, and the extraction of
    the content of a page by the browser, which can fail. *)
Variable ROOT_DIR : JSString.
Variable join : JSString -> JSString -> JSString.
Variable existsSync : JSString -> bool.
Variable readFileSync : JSString -> Outcome JSString.
Variable extractWebPageContent : Config.Entry -> bool -> Outcome WebContent.

Definition markdownPath (entry : Config.Entry) : JSString :=
  join (join ROOT_DIR (Config.archivePath entry)) (Config.markdownFile entry).

(** [verifyArticle]: what is no article has no [archivePath], and [join]
    throws on what is no string. *)
Definition verifyArticle (article : Value) (verbose : bool) : Outcome bool :=
  match article with
  | Builtin _ => Throws TypeError
  | Configured entry =>
      if negb (existsSync (markdownPath entry)) then Returns false
      else
        match extractWebPageContent entry verbose with
        | Throws e => Throws e
        | Returns webContent =>
            match readFileSync (markdownPath entry) with
            | Throws e => Throws e
            | Returns markdownText =>
                let result :=
                  verifyMarkdownContent (articleOf entry) webContent markdownText in
                Returns (success result)
            end
        end
  end.

(** [options.version] as a condition: a string that is not empty. *)
Definition versionGiven (options : Cli.Options) : option JSString :=
  match Cli.version options with
  | Some (c :: v) => Some (c :: v)
  | _ => None
  end.

(** What [main] does with the articles: the result of each, in order. *)
Definition verifyEach (articles : list Value) (verbose : bool) : list bool :=
  map (fun article =>
         match verifyArticle article verbose with
         | Returns success => success
         | Throws _ => false
         end) articles.

(** [main]: the results of the articles verified, and the exit code.
    An error of [getArticle] leaves [main] and is caught at its call. *)
Definition main (args : list JSString) : list bool * nat :=
  let options := parseArgs args in
  match Cli.all options, versionGiven options with
  | false, None => ([], 0)
  | true, _ =>
      let results := verifyEach (map Configured getAllArticles) (Cli.verbose options) in
      (results, if forallb (fun ok => ok) results then 0 else 1)
  | false, Some version =>
      match getArticle version with
      | Throws _ => ([], 1)
      | Returns article =>
          let results := verifyEach [article] (Cli.verbose options) in
          (results, if forallb (fun ok => ok) results then 0 else 1)
      end
  end.

End Script.

Set Implicit Arguments.

(** ** Notions used in the statements *)

(** The items of a loop of checks that fail their test. *)
Definition failures (A : Type) (ok : A -> bool) (xs : list A) : list A :=
  filter (fun x => negb (ok x)) xs.

Definition titleChecks (w : WebContent) : nat :=
  match title w with
  | [] => 0
  | _ :: _ => 1
  end.

Definition titlePasses (nmd : JSString) (w : WebContent) : nat :=
  match title w with
  | [] => 0
  | _ :: _ => if titlePresent nmd (title w) then 1 else 0
  end.

Definition titleMissing (nmd : JSString) (w : WebContent) : bool :=
  match title w with
  | [] => false
  | _ :: _ => negb (titlePresent nmd (title w))
  end.

(** The number of image checks of an article: one, except for an article
    with local images that declares no figures. *)
Definition imageChecks (article : Article) : nat :=
  if hasLocalImages article
  then if 0 <? declaredFigures article then 1 else 0
  else 1.

(** The final part of [verifyMarkdownContent], from the state of the checks. *)
Definition report (st : Checks) : Report :=
  let passRate := if 0 <? total st then jsDiv (passed st) (total st) else Num 0 in
  let hasMissingContent :=
    (Missing.title (miss st) || (0 <? Missing.images (miss st))
     || anyRecorded (miss st))%bool in
  {| totalChecks := total st;
     passedChecks := passed st;
     passRate := passRate;
     hasMissingContent := hasMissingContent;
     missing := miss st;
     success := (negb hasMissingContent || jsGe passRate (85 # 100))%bool |}.

(** Nothing was recorded in [missing]. *)
Definition nothingMissing (m : Missing.t) : Prop :=
  Missing.title m = false /\ Missing.images m = 0
  /\ Missing.headings m = [] /\ Missing.paragraphs m = []
  /\ Missing.codeBlocks m = [] /\ Missing.formulas m = []
  /\ Missing.listItems m = [].

(** The number of distinct matches of the figure pattern, as the
    specification words the figure check. *)
Definition distinctFigures (md : JSString) : nat :=
  length (nodup (list_eq_dec N.eq_dec) (Regex.figureMatches md)).

(** The significant lines of a code block as the specification words
    them: the lines as they stand, not trimmed. *)
Definition significantLinesAsWorded (code : JSString) : list JSString :=
  filter (fun l => ((3 <? length l) && negb (onlyBrackets l))%bool) (split 10 code).

(** A code block is present, as the specification words it. *)
Definition codeBlockPresentAsWorded (nmdc code : JSString) : bool :=
  let lines := significantLinesAsWorded code in
  let found := filter (fun l => includes nmdc (normalizeCode l)) lines in
  ((6 * length lines <=? 10 * length found)
   || includes nmdc (normalizeCode code))%bool.

(** U+0130, the capital I with a dot above. *)
Definition isDottedI (c : CodeUnit) : bool := N.eqb c 0x130.


(** The room that a code unit can take after normalization: an arrow and
    a dotted capital I become two code units, everything else at most one. *)
Definition weight1 (c : CodeUnit) : nat :=
  1 + (if isArrow c then 1 else 0) + (if isDottedI c then 1 else 0).

Definition weight (s : JSString) : nat := list_sum (map weight1 s).

(** The code units of U+200B to U+200F and U+202A to U+202E: replaced
    by a space in the second step although [\s] does not match them. *)
Definition isInvisible (c : CodeUnit) : bool :=
  (inRange 0x200B 0x200F c || inRange 0x202A 0x202E c)%bool.

(** The code units that start or delimit a markup sequence. *)
Definition isMarkup (c : CodeUnit) : bool :=
  (N.eqb c backslash || N.eqb c dollar || N.eqb c caret)%bool.

Definition plain (c : CodeUnit) : bool := negb (isMarkup c || isInvisible c).

(** White space after the first two steps: lone spaces between words.
    [afterSpace] tells that the previous code unit was a space, or that
    the text starts here. *)
Fixpoint spacedFrom (afterSpace : bool) (s : JSString) : bool :=
  match s with
  | [] => negb afterSpace
  | c :: s' =>
      if isWhiteSpace c
      then (N.eqb c 32 && negb afterSpace && spacedFrom true s')%bool
      else spacedFrom false s'
  end.

Definition spaced (s : JSString) : bool :=
  match s with
  | [] => true
  | _ :: _ => spacedFrom true s
  end.

Definition isWord (c : CodeUnit) : Prop := isWhiteSpace c = false.

(** A plain code unit that is a space if it is white space at all. *)
Definition tidy (c : CodeUnit) : Prop :=
  plain c = true /\ (isWhiteSpace c = true -> c = 32%N).

(** A code unit that no step of the normalization changes. *)
Definition settled (c : CodeUnit) : Prop :=
  tidy c /\ isTimes c = false /\ isArrow c = false /\ isMinus c = false
  /\ lowerUnit c = [c].

(** The code units produced by [lowerUnit] from another code unit. *)
Definition isLowerLetter (d : CodeUnit) : bool :=
  (inRange 0x61 0x7A d || (inRange 0xE0 0xFE d && negb (N.eqb d 0xF7))
   || inRange 0x430 0x45F d || N.eqb d 0x307)%bool.

(** The chain of [normalizeText] from its third call on. *)
Definition substitutions (s : JSString) : JSString :=
  let s := replaceClass isVariousSpace (lit " ") s in
  let s := replaceClass isNbsp (lit " ") s in
  let s := replaceClass isApostrophe (lit "'") s in
  let s := replaceClass isDoubleQuote [34%N] s in
  let s := replaceClass isTimes (lit "x") s in
  let s := replaceAll (backslash :: lit "times") (lit "x") s in
  let s := replaceClass isArrow (lit "->") s in
  let s := replaceAll (backslash :: lit "to") (lit "->") s in
  let s := replaceClass isMinus (lit "-") s in
  let s := replaceAll [dollar; dollar] [] s in
  let s := replaceAll [dollar] [] s in
  let s := replaceAll (backslash :: lit "subseteq") [0x2286%N] s in
  let s := replaceFrom eqIgnoreCase (backslash :: lit "mathbb{n}_0")
             [0x2115%N; 0x2080%N] 0 s in
  let s := replaceAll (backslash :: lit "in") [0x2208%N] s in
  let s := replaceAll (backslash :: lit "emptyset") [0x2205%N] s in
  let s := replaceAll (caret :: lit "2") [0xB2%N] s in
  let s := replaceAll (caret :: lit "n") [0x207F%N] s in
  toLowerCase s.

Unset Implicit Arguments.

(** The last code unit removed if it is a space. *)
Fixpoint dropLastSpace (r : JSString) : JSString :=
  match r with
  | [] => []
  | c :: r' =>
      match r' with
      | [] => if N.eqb c 32 then [] else [c]
      | _ :: _ => c :: dropLastSpace r'
      end
  end.

(** The runs of white space of a text replaced by one space each, none
    at the start and none at the end. *)
Definition squeeze (s : JSString) : JSString :=
  dropLastSpace (collapseFrom true s).

Definition allSpace (s : JSString) : Prop := Forall (fun c => isWhiteSpace c = true) s.

(** The chain of [normalizeCode] from its third call on. *)
Definition codeSubstitutions (s : JSString) : JSString :=
  let s := replaceClass isVariousSpace (lit " ") s in
  let s := replaceClass isNbsp (lit " ") s in
  let s := replaceClass isTimes (lit "x") s in
  let s := replaceAll (backslash :: lit "times") (lit "x") s in
  let s := replaceAll [dollar; dollar] [] s in
  let s := replaceAll [dollar] [] s in
  toLowerCase s.

Definition allWord (s : JSString) : Prop := Forall (fun c => isWhiteSpace c = false) s.

(** The escapes of the multiplication sign and of the arrow. *)
Definition timesEscape : JSString := backslash :: lit "times".
Definition toEscape : JSString := backslash :: lit "to".

(** The chain of [normalizeText] in three parts: up to the replacement of
    the multiplication sign, up to the replacement of the arrows, and
    from the minus sign on. *)
Definition untilTimes (s : JSString) : JSString :=
  let s := replaceClass isVariousSpace (lit " ") s in
  let s := replaceClass isNbsp (lit " ") s in
  let s := replaceClass isApostrophe (lit "'") s in
  let s := replaceClass isDoubleQuote [34%N] s in
  replaceClass isTimes (lit "x") s.

Definition untilArrow (s : JSString) : JSString :=
  replaceClass isArrow (lit "->") (replaceAll timesEscape (lit "x") (untilTimes s)).

Definition fromMinus (s : JSString) : JSString :=
  let s := replaceClass isMinus (lit "-") s in
  let s := replaceAll [dollar; dollar] [] s in
  let s := replaceAll [dollar] [] s in
  let s := replaceAll (backslash :: lit "subseteq") [0x2286%N] s in
  let s := replaceFrom eqIgnoreCase (backslash :: lit "mathbb{n}_0")
             [0x2115%N; 0x2080%N] 0 s in
  let s := replaceAll (backslash :: lit "in") [0x2208%N] s in
  let s := replaceAll (backslash :: lit "emptyset") [0x2205%N] s in
  let s := replaceAll (caret :: lit "2") [0xB2%N] s in
  let s := replaceAll (caret :: lit "n") [0x207F%N] s in
  toLowerCase s.

(** The chain of [normalizeCode] before and after the replacement of the
    escape of the multiplication sign. *)
Definition codeUntilTimes (s : JSString) : JSString :=
  let s := replaceClass isVariousSpace (lit " ") s in
  let s := replaceClass isNbsp (lit " ") s in
  replaceClass isTimes (lit "x") s.

Definition codeFromDollar (s : JSString) : JSString :=
  let s := replaceAll [dollar; dollar] [] s in
  let s := replaceAll [dollar] [] s in
  toLowerCase s.



(** Every code unit of a text is one of a class. *)
Definition every (q : CodeUnit -> bool) (s : JSString) : Prop :=
  Forall (fun c => q c = true) s.

(** The code units on which [lowerUnit] does not stand for
    [toLowerCase]: the surrogates, and the ranges with capital letters
    that the table does not hold. These are Latin Extended-A and B but
    for U+0130, Greek but for the small letters, Cyrillic from U+0460
    and Armenian, Georgian, Cherokee, Cyrillic Extended-C and Georgian
    Extended, Latin Extended Additional and Greek Extended, the
    letterlike symbols from the ohm sign to the turned F, the Roman
    numerals, the circled letters, Glagolitic, Latin Extended-C and
    Coptic, Cyrillic Extended-B, Latin Extended-D, and the fullwidth
    capital letters. *)
Definition otherCapitals (c : CodeUnit) : bool :=
  (inRange 0x100 0x12F c || inRange 0x131 0x24F c || inRange 0x370 0x3AB c
   || inRange 0x3CF 0x3FF c || inRange 0x460 0x58F c || inRange 0x10A0 0x10FF c
   || inRange 0x13A0 0x13FF c || inRange 0x1C80 0x1CBF c || inRange 0x1E00 0x1FFF c
   || inRange 0x2126 0x2132 c || inRange 0x2160 0x2183 c || inRange 0x24B6 0x24CF c
   || inRange 0x2C00 0x2CFF c || inRange 0xA640 0xA69F c || inRange 0xA720 0xA7FF c
   || inRange 0xD800 0xDFFF c || inRange 0xFF21 0xFF3A c)%bool.

(** A code unit whose lower case [lowerUnit] gives as [toLowerCase]
    does. *)
Definition caseKnown (c : CodeUnit) : bool :=
  (N.leb c 0xFFFF && negb (otherCapitals c))%bool.

(** A text on which [toLowerCase] works code unit by code unit, by the
    table of [lowerUnit]. *)
Definition knownCase (s : JSString) : Prop := every caseKnown s.

(** A step of a normalizer between the white space and the case: the
    replacement of the code units of a class, or of the matches of a
    literal pattern. *)
Inductive Step : Type :=
  | Class (p : CodeUnit -> bool) (rep : JSString)
  | Literal (eqc : CodeUnit -> CodeUnit -> bool) (pat rep : JSString).

Definition replacement (st : Step) : JSString :=
  match st with
  | Class _ rep => rep
  | Literal _ _ rep => rep
  end.

Definition applyStep (st : Step) (s : JSString) : JSString :=
  match st with
  | Class p rep => replaceClass p rep s
  | Literal eqc pat rep => replaceFrom eqc pat rep 0 s
  end.

Definition run (steps : list Step) (s : JSString) : JSString :=
  fold_left (fun s st => applyStep st s) steps s.

(** The calls of [normalizeText] from the third to the last but one. *)
Definition textSteps : list Step :=
  [ Class isVariousSpace (lit " ");
    Class isNbsp (lit " ");
    Class isApostrophe (lit "'");
    Class isDoubleQuote [34%N];
    Class isTimes (lit "x");
    Literal N.eqb (backslash :: lit "times") (lit "x");
    Class isArrow (lit "->");
    Literal N.eqb (backslash :: lit "to") (lit "->");
    Class isMinus (lit "-");
    Literal N.eqb [dollar; dollar] [];
    Literal N.eqb [dollar] [];
    Literal N.eqb (backslash :: lit "subseteq") [0x2286%N];
    Literal eqIgnoreCase (backslash :: lit "mathbb{n}_0") [0x2115%N; 0x2080%N];
    Literal N.eqb (backslash :: lit "in") [0x2208%N];
    Literal N.eqb (backslash :: lit "emptyset") [0x2205%N];
    Literal N.eqb (caret :: lit "2") [0xB2%N];
    Literal N.eqb (caret :: lit "n") [0x207F%N] ].

(** The calls of [normalizeCode] from the third to the last but one. *)
Definition codeSteps : list Step :=
  [ Class isVariousSpace (lit " ");
    Class isNbsp (lit " ");
    Class isTimes (lit "x");
    Literal N.eqb (backslash :: lit "times") (lit "x");
    Literal N.eqb [dollar; dollar] [];
    Literal N.eqb [dollar] [] ].












(** The failure of the check of external image references: the only
    failed check that [missing] does not record. *)
Definition unrecordedFailure (article : Article) (md : JSString) : nat :=
  if (negb (hasLocalImages article) && negb (Regex.hasImageMatch md))%bool
  then 1 else 0.

(** The number of failures that [missing] records. *)
Definition recorded (m : Missing.t) : nat :=
  (if Missing.title m then 1 else 0)
  + length (Missing.headings m) + length (Missing.paragraphs m)
  + length (Missing.codeBlocks m) + length (Missing.formulas m)
  + length (Missing.listItems m)
  + (if 0 <? Missing.images m then 1 else 0).

(** The options of two command lines, one after the other. *)
Definition later (first second : Cli.Options) : Cli.Options :=
  {| Cli.version := match Cli.version second with
                    | Some v => Some v
                    | None => Cli.version first
                    end;
     Cli.all := (Cli.all first || Cli.all second)%bool;
     Cli.verbose := (Cli.verbose first || Cli.verbose second)%bool |}.

(** The arguments that [parseArgs] reads: the three options and the
    arguments that do not start with a hyphen. *)
Definition isRead (arg : JSString) : bool :=
  (eqString arg (lit "--all") || eqString arg (lit "--verbose")
   || eqString arg (lit "-v") || negb (isOption arg))%bool.

(** A text without a line terminator. *)
Definition oneLine (s : JSString) : Prop :=
  Forall (fun c => isLineTerminator c = false) s.

(** A text that holds a reference to an image at an address of the web:
    [![alt](http://url)] or [![alt](https://url)], the alternative text
    and the address without a line terminator. *)
Definition imageReference (md : JSString) : Prop :=
  exists before alt scheme url after,
    md = before ++ lit "![" ++ alt ++ lit "](" ++ scheme ++ lit "://" ++ url
           ++ lit ")" ++ after
    /\ (scheme = lit "http" \/ scheme = lit "https")
    /\ oneLine alt /\ oneLine url.

(** A text of decimal digits. *)
Definition digits (s : JSString) : Prop := Forall (fun c => isDigit c = true) s.

(** A text that is a literal of a pattern under the [i] flag. *)
Definition sameIgnoringCase (pat m : JSString) : Prop :=
  Forall2 (fun p c => eqIgnoreCase p c = true) pat m.

(** The words that start a figure reference. *)
Definition figureWords : list JSString :=
  [lit "Figure"; Regex.cyrillicRis; Regex.cyrillicRis ++ lit ".";
   Regex.cyrillicRisunok].

(** The number of a figure and the path of its image:
    [ 12](images/figure-12.png)], with any white space before the first
    number, any two numbers, and [png] or [jpg]. *)
Definition numberAndPath (t : JSString) : Prop :=
  exists ws n1 b n2 c ext,
    t = ws ++ n1 ++ b ++ n2 ++ c
    /\ In ext [lit "png"; lit "jpg"]
    /\ allSpace ws /\ digits n1 /\ n1 <> []
    /\ sameIgnoringCase (lit "](images/figure-") b
    /\ digits n2 /\ n2 <> []
    /\ sameIgnoringCase (lit "." ++ ext ++ lit ")") c.

(** A reference to a figure: [![Figure 12](images/figure-12.png)] and the
    like, letters in either case. *)
Definition figureReference (m : JSString) : Prop :=
  exists a t word,
    m = a ++ t /\ In word figureWords
    /\ sameIgnoringCase (lit "![" ++ word) a /\ numberAndPath t.

(** A text that does not start with a code unit of [p]. *)
Definition stops (p : CodeUnit -> bool) (s : JSString) : Prop :=
  match s with
  | [] => True
  | c :: _ => p c = false
  end.

(** No code unit of a reference but the first is an exclamation mark. *)
Definition noBang (s : JSString) : Prop :=
  Forall (fun c => eqIgnoreCase 33 c = false) s.

(** The number of places of a text where a match of the figure pattern
    starts. *)
Fixpoint figureStarts (s : JSString) : nat :=
  match s with
  | [] => 0
  | _ :: s' =>
      (match Regex.figureAt s with Some _ => 1 | None => 0 end) + figureStarts s'
  end.

Set Implicit Arguments.

(** ** Sample inputs *)

Definition threeParagraphs : WebContent :=
  {| title := []; headings := [];
     paragraphs := [lit "first paragraph"; lit "second paragraph"; lit "third paragraph"];
     codeBlocks := []; formulas := []; listItems := []; links := []; figures := [] |}.

Definition localArticle (n : nat) : Article :=
  {| hasLocalImages := true; expectedFigures := Some n |}.

Definition emptyContent : WebContent :=
  {| title := []; headings := []; paragraphs := []; codeBlocks := [];
     formulas := []; listItems := []; links := []; figures := [] |}.

(** An article with local images and no declared figure count. *)
Definition undeclaredArticle : Article :=
  {| hasLocalImages := true; expectedFigures := None |}.

(** A run with one heading, found in the candidate. *)
Definition oneHeading : WebContent :=
  {| title := []; headings := [{| level := lit "h2"; text := lit "Intro" |}];
     paragraphs := []; codeBlocks := []; formulas := []; listItems := [];
     links := []; figures := [] |}.

(** The two decimal digits of a number below 100. *)
Definition twoDigits (n : nat) : JSString :=
  [N.of_nat (48 + n / 10); N.of_nat (48 + n mod 10)].

Definition figureRef (n : nat) : JSString :=
  lit "![Figure " ++ twoDigits n ++ lit "](images/figure-"
    ++ twoDigits n ++ lit ".png)".

(** Twelve figure references, with different numbers. *)
Definition twelveFigures : JSString :=
  concat (map figureRef [1; 2; 3; 4; 5; 6; 7; 8; 9; 10; 11; 12])
  ++ lit " text ![Figure 13](figure-13.png)".

(** Thirteen times the same figure reference. *)
Definition sameFigureThirteenTimes : JSString :=
  concat (repeat (figureRef 1) 13).

Definition bracesOnly : JSString :=
  lit "{" ++ [10%N] ++ lit "  x" ++ [10%N] ++ lit "}]);,".

Definition foxParagraph : JSString :=
  lit "The quick brown fox jumps over the lazy dog today".

(** A candidate with six of the ten words of [foxParagraph]. *)
Definition sixOfTen : JSString :=
  lit "Quick brown fox jumped over lazy dog yesterday.".

(** A candidate with five of them. *)
Definition fiveOfTen : JSString :=
  lit "Quick brown fox jumped over lazy cat yesterday.".

Definition nl : JSString := [10%N].

Definition fiveLines : JSString :=
  lit "let a = 1;" ++ nl ++ lit "  let b = 2;" ++ nl ++ lit "    }" ++ nl
  ++ lit "let c = a + b;" ++ nl ++ lit "print(c);" ++ nl ++ lit "return c;".

Definition sampleText : JSString :=
  lit "  The  Set A " ++ [0xD7; 0xA0; 0x2003]%N ++ lit "B " ++ [0x2192]%N
      ++ lit " C" ++ [10%N] ++ lit "is 'Closed'  ".

Unset Implicit Arguments.

(** A paragraph of sixteen words of more than 2 code units, the first
    50 code units of its normal form, and the same with one code unit
    altered. *)
Definition greekParagraph : JSString :=
  lit "Alpha beta gamma delta epsilon zeta eta theta iota kappa lambda mu nu xi omicron pi rho sigma tau upsilon".

Definition greekBeginning : JSString :=
  lit "alpha beta gamma delta epsilon zeta eta theta iota".

Definition greekAltered : JSString :=
  lit "alpha beta gamma delta epsilon zeta eta theta iotx".

(** A code block of two lines, the second a bracket after four spaces. *)
Definition indentedBracket : JSString :=
  lit "foo bar baz" ++ [10%N] ++ lit "    }".

(** A page of three paragraphs, with formulas, links and figures. *)
Definition shortPage (formula : JSString) (figure : nat) : WebContent :=
  {| title := lit "Links"; headings := [];
     paragraphs := [lit "one"; lit "two"; lit "three"];
     codeBlocks := []; formulas := [formula]; listItems := [lit "item"];
     links := [{| linkText := formula; href := formula |}];
     figures := [figure] |}.

(** A text with escapes in lower case. *)
Definition lowerEscapes : JSString :=
  lit "For A \times B \to C, x^2 \in \mathbb{N}_0: it's so.".

(** An article whose images stay on the web. *)
Definition externalArticle : Article :=
  {| hasLocalImages := false; expectedFigures := None |}.

Definition sampleHeading : Heading :=
  {| level := lit "h2"; text := lit "Deep Theory" |}.

(** A page of eleven paragraphs and eleven list items. *)
Definition longPage (middle last : JSString) : WebContent :=
  {| title := lit "Links"; headings := [sampleHeading];
     paragraphs := repeat (lit "first five") 5 ++ [middle]
                     ++ repeat (lit "last five") 5;
     codeBlocks := []; formulas := [middle];
     listItems := repeat (lit "item") 10 ++ [last];
     links := []; figures := [] |}.

(** A world without files and without network. *)
Definition sampleJoin (a b : JSString) : JSString := a ++ lit "/" ++ b.
Definition noFile (path : JSString) : bool := false.
Definition unreadable (path : JSString) : Outcome JSString :=
  Throws (Failure (lit "ENOENT")).
Definition offline (entry : Config.Entry) (verbose : bool) : Outcome WebContent :=
  Throws (Failure (lit "ERR_INTERNET_DISCONNECTED")).

Set Implicit Arguments.

(** ** Sanity checks of the embedding *)

Example figure_matches_en :
  Regex.figureMatches (lit "a ![Figure 1](images/figure-1.png) b ![figure  22](IMAGES/figure-22.JPG)")
  = [lit "![Figure 1](images/figure-1.png)"; lit "![figure  22](IMAGES/figure-22.JPG)"].
Proof. vm_compute. reflexivity. Qed.

Example figure_matches_ru :
  length (Regex.figureMatches
    (lit "![" ++ Regex.cyrillicRis ++ lit ". 3](images/figure-3.png)![" ++
     Regex.cyrillicRisunok ++ lit "4](images/figure-4.jpg)![Figure](images/figure-4.jpg)")) = 2.
Proof. vm_compute. reflexivity. Qed.

Example image_match :
  Regex.hasImageMatch (lit "x ![a](b) ![alt](https://h/i.png) y") = true
  /\ Regex.hasImageMatch (lit "![alt](ftp://h/i.png)") = false.
Proof. split; vm_compute; reflexivity. Qed.

Example normalize_times :
  normalizeText (lit "L \times L") = lit "l x l"
  /\ normalizeText (lit "L " ++ [0xD7%N] ++ lit " L") = lit "l x l".
Proof. split; vm_compute; reflexivity. Qed.

Example normalize_spaces :
  normalizeText (lit "a" ++ [0xA0%N; 0x2003%N] ++ lit " b") = normalizeText (lit "a b").
Proof. vm_compute. reflexivity. Qed.

(** ** Facts about strings *)

Section StringFacts.

Lemma startsWith_app (sub post : JSString) :
  startsWith N.eqb sub (sub ++ post) = true.
Proof.
  induction sub as [|p sub IH]; simpl; [reflexivity|].
  now rewrite N.eqb_refl, IH.
Qed.

Lemma startsWith_inv (sub s : JSString) :
  startsWith N.eqb sub s = true -> exists post, s = sub ++ post.
Proof.
  revert s; induction sub as [|p sub IH]; intros s H.
  - now exists s.
  - destruct s as [|c s]; simpl in H; [discriminate|].
    apply andb_true_iff in H as [Hc Hs].
    apply N.eqb_eq in Hc; subst c.
    destruct (IH _ Hs) as [post ->].
    now exists post.
Qed.

Lemma startsWith_length eqc (pat s : JSString) :
  startsWith eqc pat s = true -> length pat <= length s.
Proof.
  revert s; induction pat as [|p pat IH]; intros s H; simpl; [lia|].
  destruct s as [|c s]; simpl in H; [discriminate|].
  apply andb_true_iff in H as [_ Hs].
  apply IH in Hs. simpl. lia.
Qed.

Lemma includes_prefix (s sub : JSString) :
  startsWith N.eqb sub s = true -> includes s sub = true.
Proof. destruct s; simpl; intros ->; reflexivity. Qed.

(** [includes] is the substring relation. *)
Lemma includes_spec (s sub : JSString) :
  includes s sub = true <-> exists pre post, s = pre ++ sub ++ post.
Proof.
  split.
  - induction s as [|c s IH]; simpl; intros H.
    + rewrite orb_false_r in H.
      destruct (startsWith_inv _ _ H) as [post E].
      now exists [], post.
    + apply orb_true_iff in H as [H|H].
      * destruct (startsWith_inv _ _ H) as [post E].
        now exists [], post.
      * destruct (IH H) as (pre & post & ->).
        now exists (c :: pre), post.
  - intros (pre & post & ->).
    induction pre as [|c pre IH]; simpl.
    + apply includes_prefix, startsWith_app.
    + now rewrite IH, orb_true_r.
Qed.

Lemma includes_nil (s : JSString) : includes s [] = true.
Proof. destruct s; reflexivity. Qed.

Lemma dropWhile_length p (s : JSString) : length (dropWhile p s) <= length s.
Proof.
  induction s as [|c s IH]; simpl; [lia|].
  destruct (p c); simpl; lia.
Qed.

Lemma dropWhile_id p (s : JSString) :
  match s with [] => True | c :: _ => p c = false end -> dropWhile p s = s.
Proof. destruct s as [|c s]; simpl; [reflexivity|]. now intros ->. Qed.

Lemma trim_length (s : JSString) : length (trim s) <= length s.
Proof.
  unfold trim, trimEnd, trimStart.
  rewrite length_rev.
  etransitivity; [apply dropWhile_length|].
  rewrite length_rev. apply dropWhile_length.
Qed.

End StringFacts.

(** ** Facts about the loop of checks *)

Section CheckFacts.

Variable A : Type.
Variable ok : A -> bool.
Variable record : A -> Missing.t -> Missing.t.

Lemma forEach_check (xs : list A) (st : Checks) :
  forEach (fun x => check (ok x) (record x)) xs st =
  {| total := total st + length xs;
     passed := passed st + length (filter ok xs);
     miss := fold_left (fun m x => record x m) (failures ok xs) (miss st) |}.
Proof.
  unfold forEach, failures.
  revert st; induction xs as [|x xs IH]; intros st; simpl.
  - destruct st; simpl. f_equal; lia.
  - rewrite IH. unfold check.
    destruct (ok x); simpl; f_equal; lia.
Qed.

End CheckFacts.

(** The effect of a loop of failures on each field of [missing]. *)

Ltac fold_push :=
  let m := fresh "m" in
  let xs := fresh "xs" in
  let x := fresh "x" in
  let IH := fresh "IH" in
  intros xs; induction xs as [|x xs IH]; intros m; cbn [fold_left map];
  [ destruct m; cbn; now rewrite ?app_nil_r
  | rewrite IH; cbn; now rewrite <- ?app_assoc ].

Lemma fold_pushHeading (A : Type) (f : A -> JSString) :
  forall xs m,
    fold_left (fun m x => pushHeading (f x) m) xs m =
    {| Missing.title := Missing.title m;
       Missing.headings := Missing.headings m ++ map f xs;
       Missing.paragraphs := Missing.paragraphs m;
       Missing.codeBlocks := Missing.codeBlocks m;
       Missing.formulas := Missing.formulas m;
       Missing.listItems := Missing.listItems m;
       Missing.images := Missing.images m |}.
Proof. fold_push. Qed.

Lemma fold_pushParagraph (A : Type) (f : A -> JSString) :
  forall xs m,
    fold_left (fun m x => pushParagraph (f x) m) xs m =
    {| Missing.title := Missing.title m;
       Missing.headings := Missing.headings m;
       Missing.paragraphs := Missing.paragraphs m ++ map f xs;
       Missing.codeBlocks := Missing.codeBlocks m;
       Missing.formulas := Missing.formulas m;
       Missing.listItems := Missing.listItems m;
       Missing.images := Missing.images m |}.
Proof. fold_push. Qed.

Lemma fold_pushCodeBlock (A : Type) (f : A -> JSString) :
  forall xs m,
    fold_left (fun m x => pushCodeBlock (f x) m) xs m =
    {| Missing.title := Missing.title m;
       Missing.headings := Missing.headings m;
       Missing.paragraphs := Missing.paragraphs m;
       Missing.codeBlocks := Missing.codeBlocks m ++ map f xs;
       Missing.formulas := Missing.formulas m;
       Missing.listItems := Missing.listItems m;
       Missing.images := Missing.images m |}.
Proof. fold_push. Qed.

Lemma fold_pushListItem (A : Type) (f : A -> JSString) :
  forall xs m,
    fold_left (fun m x => pushListItem (f x) m) xs m =
    {| Missing.title := Missing.title m;
       Missing.headings := Missing.headings m;
       Missing.paragraphs := Missing.paragraphs m;
       Missing.codeBlocks := Missing.codeBlocks m;
       Missing.formulas := Missing.formulas m;
       Missing.listItems := Missing.listItems m ++ map f xs;
       Missing.images := Missing.images m |}.
Proof. fold_push. Qed.

(** ** The report, category by category *)

(** The state of the checks before the image check, in closed form. *)
Lemma contentChecks_closed (w : WebContent) (md : JSString) :
  let nmd := normalizeText md in
  let nmdc := normalizeCode md in
  contentChecks w md =
  {| total := titleChecks w + length (headings w)
              + length (paragraphsToCheck (paragraphs w))
              + length (codeBlocks w)
              + length (listItemsToCheck (listItems w));
     passed := titlePasses nmd w
               + length (filter (headingPresent nmd) (headings w))
               + length (filter (paragraphPresent nmd) (paragraphsToCheck (paragraphs w)))
               + length (filter (codeBlockPresent nmdc) (codeBlocks w))
               + length (filter (listItemPresent nmd) (listItemsToCheck (listItems w)));
     miss :=
       {| Missing.title := titleMissing nmd w;
          Missing.headings :=
            map text (failures (headingPresent nmd) (headings w));
          Missing.paragraphs :=
            map preview (failures (paragraphPresent nmd)
                           (paragraphsToCheck (paragraphs w)));
          Missing.codeBlocks :=
            map preview (failures (codeBlockPresent nmdc) (codeBlocks w));
          Missing.formulas := [];
          Missing.listItems :=
            map preview (failures (listItemPresent nmd)
                           (listItemsToCheck (listItems w)));
          Missing.images := 0 |} |}.
Proof.
  intros nmd nmdc.
  unfold contentChecks, checkListItems, checkCodeBlocks, checkParagraphs,
    checkHeadings.
  fold nmd nmdc.
  rewrite !forEach_check.
  rewrite (fold_pushListItem preview), (fold_pushCodeBlock preview),
    (fold_pushParagraph preview), (fold_pushHeading text).
  unfold checkTitle, titleChecks, titlePasses, titleMissing, check.
  destruct (title w) as [|c t]; [reflexivity|].
  destruct (titlePresent nmd (c :: t));
    cbn [total passed miss pass fail start setTitle noneMissing negb app
         Missing.title Missing.headings Missing.paragraphs Missing.codeBlocks
         Missing.formulas Missing.listItems Missing.images];
    f_equal; lia.
Qed.

Lemma verifyMarkdownContent_stages (article : Article) (w : WebContent) (md : JSString) :
  verifyMarkdownContent article w md =
  report (checkImages article md (contentChecks w md)).
Proof. reflexivity. Qed.

Lemma checkImages_total (article : Article) (md : JSString) (st : Checks) :
  total (checkImages article md st) = total st + imageChecks article.
Proof.
  unfold checkImages, imageChecks, pass, fail.
  destruct (hasLocalImages article); cbn [andb negb].
  - destruct (0 <? declaredFigures article); [|lia].
    destruct (declaredFigures article <=? _); cbn [total]; lia.
  - destruct (Regex.hasImageMatch md); cbn [total]; lia.
Qed.

(** The image check leaves the lists of [missing] and its title flag as
    they are. *)
Lemma checkImages_lists (article : Article) (md : JSString) (st : Checks) :
  let m := miss st in
  let m' := miss (checkImages article md st) in
  Missing.title m' = Missing.title m
  /\ Missing.headings m' = Missing.headings m
  /\ Missing.paragraphs m' = Missing.paragraphs m
  /\ Missing.codeBlocks m' = Missing.codeBlocks m
  /\ Missing.formulas m' = Missing.formulas m
  /\ Missing.listItems m' = Missing.listItems m.
Proof.
  unfold checkImages, pass, fail.
  destruct (hasLocalImages article); cbn [andb negb].
  - destruct (0 <? declaredFigures article); [|now repeat split].
    destruct (declaredFigures article <=? _); now repeat split.
  - destruct (Regex.hasImageMatch md); now repeat split.
Qed.

Lemma paragraphsToCheck_length (ps : list JSString) :
  length (paragraphsToCheck ps) = Nat.min 5 (length ps) + Nat.min 5 (length ps).
Proof.
  unfold paragraphsToCheck.
  rewrite length_app, length_firstn, length_skipn. lia.
Qed.

(** ** C10: the paragraph sample *)

(** C10. For a reference with [n] paragraphs the sample holds
    [min 5 n + min 5 n] paragraphs, each of them is one check counted in
    [totalChecks], and for [0 < n < 10] the two slices overlap: more
    checks are made than there are paragraphs. *)
Theorem paragraph_sample_counted_twice
    (article : Article) (w : WebContent) (md : JSString) :
  length (paragraphsToCheck (paragraphs w))
    = Nat.min 5 (length (paragraphs w)) + Nat.min 5 (length (paragraphs w))
  /\ totalChecks (verifyMarkdownContent article w md)
     = titleChecks w + length (headings w)
       + (Nat.min 5 (length (paragraphs w)) + Nat.min 5 (length (paragraphs w)))
       + length (codeBlocks w) + Nat.min 10 (length (listItems w))
       + imageChecks article
  /\ (0 < length (paragraphs w) < 10 ->
      length (paragraphs w) < length (paragraphsToCheck (paragraphs w))).
Proof.
  split; [apply paragraphsToCheck_length|]. split.
  - rewrite verifyMarkdownContent_stages. cbn [report totalChecks].
    rewrite checkImages_total.
    pose proof (contentChecks_closed w md) as E. cbv zeta in E. rewrite E.
    cbn [total]. rewrite paragraphsToCheck_length.
    unfold listItemsToCheck. rewrite length_firstn. lia.
  - rewrite paragraphsToCheck_length. lia.
Qed.

Lemma paragraph_sample_counted_twice_witness :
  0 < length (paragraphs threeParagraphs) < 10
  /\ length (paragraphs threeParagraphs)
     < length (paragraphsToCheck (paragraphs threeParagraphs)).
Proof.
  assert (H : 0 < length (paragraphs threeParagraphs) < 10) by (simpl; lia).
  split; [exact H|].
  exact (proj2 (proj2 (paragraph_sample_counted_twice (localArticle 13) threeParagraphs [])) H).
Defined.

(** ** C1: the verdict *)

Lemma nonempty_false (A : Type) (l : list A) : (0 <? length l) = false <-> l = [].
Proof. destruct l; simpl; split; intros H; try reflexivity; discriminate. Qed.

Lemma hasMissingContent_false (st : Checks) :
  hasMissingContent (report st) = false <-> nothingMissing (miss st).
Proof.
  unfold report, nothingMissing, anyRecorded; cbn [hasMissingContent existsb].
  rewrite !orb_false_iff, !nonempty_false, Nat.ltb_ge.
  intuition auto; lia.
Qed.

Lemma passed_le_total (article : Article) (w : WebContent) (md : JSString) :
  let r := verifyMarkdownContent article w md in
  passedChecks r <= totalChecks r.
Proof.
  cbv zeta. rewrite verifyMarkdownContent_stages. cbn [report passedChecks totalChecks].
  pose proof (contentChecks_closed w md) as E. cbv zeta in E.
  assert (Hc : passed (contentChecks w md) <= total (contentChecks w md)).
  { rewrite E. cbn [passed total].
    pose proof (filter_length_le (headingPresent (normalizeText md)) (headings w)).
    pose proof (filter_length_le (paragraphPresent (normalizeText md))
                  (paragraphsToCheck (paragraphs w))).
    pose proof (filter_length_le (codeBlockPresent (normalizeCode md)) (codeBlocks w)).
    pose proof (filter_length_le (listItemPresent (normalizeText md))
                  (listItemsToCheck (listItems w))).
    assert (titlePasses (normalizeText md) w <= titleChecks w).
    { unfold titlePasses, titleChecks. destruct (title w); [lia|].
      destruct (titlePresent _ _); lia. }
    lia. }
  revert Hc. generalize (contentChecks w md). intros st Hc.
  unfold checkImages, pass, fail.
  destruct (hasLocalImages article); cbn [andb negb].
  - destruct (0 <? declaredFigures article); [|exact Hc].
    destruct (declaredFigures article <=? _); cbn [total passed]; lia.
  - destruct (Regex.hasImageMatch md); cbn [total passed]; lia.
Qed.



(** ** C6: the figure check *)

Lemma checkImages_figures (article : Article) (md : JSString) (st : Checks) (e : nat) :
  hasLocalImages article = true -> expectedFigures article = Some e -> 0 < e ->
  checkImages article md st =
  if e <=? length (Regex.figureMatches md)
  then pass st
  else fail (setImages (e - length (Regex.figureMatches md))) st.
Proof.
  intros Hl He Hpos. unfold checkImages, declaredFigures.
  rewrite Hl, He. cbn [andb].
  apply Nat.ltb_lt in Hpos. now rewrite Hpos.
Qed.

(** C6, amended. For an article with local images that declares [e > 0]
    figures, exactly one figure check is made; it passes exactly when the
    figure pattern has at least [e] matches in the candidate, equal
    matches counted as often as they occur; the number of missing images
    reported is [e] less the number of matches, so 1 for 12 matches out
    of 13. *)
Theorem figure_check_by_match_count
    (article : Article) (w : WebContent) (md : JSString) (e : nat) :
  hasLocalImages article = true -> expectedFigures article = Some e -> 0 < e ->
  let found := length (Regex.figureMatches md) in
  let before := contentChecks w md in
  let r := verifyMarkdownContent article w md in
  totalChecks r = S (total before)
  /\ (passedChecks r = S (passed before) <-> e <= found)
  /\ (passedChecks r = passed before <-> found < e)
  /\ Missing.images (missing r) = e - found
  /\ (e = 13 -> found = 12 ->
      passedChecks r = passed before /\ Missing.images (missing r) = 1).
Proof.
  intros Hl He Hpos. cbv zeta.
  rewrite verifyMarkdownContent_stages.
  rewrite (checkImages_figures article md (contentChecks w md) Hl He Hpos).
  pose proof (contentChecks_closed w md) as E. cbv zeta in E.
  assert (Hi : Missing.images (miss (contentChecks w md)) = 0)
    by (rewrite E; reflexivity).
  revert Hi. generalize (contentChecks w md). intros st Hi.
  destruct (e <=? length (Regex.figureMatches md)) eqn:Hle.
  - apply Nat.leb_le in Hle.
    cbn [report pass totalChecks passedChecks missing total passed miss].
    rewrite Hi. repeat split; intros; try lia.
  - apply Nat.leb_gt in Hle.
    cbn [report fail totalChecks passedChecks missing total passed miss
         setImages Missing.images].
    repeat split; intros; try lia.
Qed.

Lemma figure_check_by_match_count_witness :
  let r := verifyMarkdownContent (localArticle 13) emptyContent twelveFigures in
  totalChecks r = 1 /\ passedChecks r = 0 /\ Missing.images (missing r) = 1.
Proof.
  cbv zeta.
  assert (Hl : hasLocalImages (localArticle 13) = true) by reflexivity.
  assert (He : expectedFigures (localArticle 13) = Some 13) by reflexivity.
  assert (Hpos : 0 < 13) by lia.
  assert (Hf : length (Regex.figureMatches twelveFigures) = 12)
    by (vm_compute; reflexivity).
  pose proof (@figure_check_by_match_count (localArticle 13) emptyContent
                twelveFigures 13 Hl He Hpos) as H.
  cbv zeta in H.
  destruct H as (Ht & _ & _ & _ & H13).
  destruct (H13 eq_refl Hf) as [Hp Hm].
  split; [exact Ht|]. split; [exact Hp|exact Hm].
Defined.

(** C6 as stated fails in two ways. The matches are counted, not the
    distinct ones: thirteen copies of one reference pass the check for 13
    figures. And the check is made for articles with local images only:
    an article without them gets the check of external image references,
    which passes here without any figure reference in the candidate. *)
Lemma figure_check_counterexample :
  (let r := verifyMarkdownContent (localArticle 13) emptyContent sameFigureThirteenTimes in
   distinctFigures sameFigureThirteenTimes = 1
   /\ totalChecks r = 1 /\ passedChecks r = 1
   /\ ~ (passedChecks r = 1 <-> 13 <= distinctFigures sameFigureThirteenTimes))
  /\
  (let article := {| hasLocalImages := false; expectedFigures := Some 13 |} in
   let md := lit "![diagram](https://example.org/d.png)" in
   let r := verifyMarkdownContent article emptyContent md in
   distinctFigures md = 0
   /\ totalChecks r = 1 /\ passedChecks r = 1
   /\ ~ (passedChecks r = 1 <-> 13 <= distinctFigures md)).
Proof.
  cbv zeta.
  assert (H1 : distinctFigures sameFigureThirteenTimes = 1) by (vm_compute; reflexivity).
  assert (H2 : distinctFigures (lit "![diagram](https://example.org/d.png)") = 0)
    by (vm_compute; reflexivity).
  split.
  - split; [exact H1|]. split; [vm_compute; reflexivity|].
    split; [vm_compute; reflexivity|].
    rewrite H1. intros [H _].
    assert (13 <= 1) by (apply H; vm_compute; reflexivity). lia.
  - split; [exact H2|]. split; [vm_compute; reflexivity|].
    split; [vm_compute; reflexivity|].
    rewrite H2. intros [H _].
    assert (13 <= 0) by (apply H; vm_compute; reflexivity). lia.
Qed.

(** ** C4: headings *)

(** C4. A heading is present exactly when its normalized text is a
    substring of the normalized candidate; the headings recorded missing
    by a run are those whose normalized text is not such a substring. *)
Theorem heading_exact_containment
    (article : Article) (w : WebContent) (md : JSString) :
  (forall h : Heading,
      headingPresent (normalizeText md) h = true <->
      exists pre post, normalizeText md = pre ++ normalizeText (text h) ++ post)
  /\ Missing.headings (missing (verifyMarkdownContent article w md))
     = map text
         (filter (fun h => negb (includes (normalizeText md) (normalizeText (text h))))
            (headings w)).
Proof.
  split.
  - intros h. unfold headingPresent. apply includes_spec.
  - rewrite verifyMarkdownContent_stages. cbn [report missing].
    destruct (checkImages_lists article md (contentChecks w md)) as (_ & -> & _).
    pose proof (contentChecks_closed w md) as E. cbv zeta in E. rewrite E.
    reflexivity.
Qed.

Example heading_one_character_altered :
  headingPresent (normalizeText (lit "# X ## Intro text")) {| level := lit "h2"; text := lit "Intro" |} = true
  /\ headingPresent (normalizeText (lit "# X ## Intra text")) {| level := lit "h2"; text := lit "Intro" |} = false.
Proof. split; vm_compute; reflexivity. Qed.

(** ** The lines of a code block *)

Lemma split_line (l : JSString) (rest : JSString) :
  ~ In 10%N l -> split 10 (l ++ 10%N :: rest) = l :: split 10 rest.
Proof.
  induction l as [|c l IH]; intros H.
  - reflexivity.
  - cbn [app split].
    destruct (N.eqb_spec c 10) as [->|_]; [exfalso; apply H; now left|].
    rewrite IH by (intros Hin; apply H; now right). reflexivity.
Qed.

Lemma split_last_line (l : JSString) : ~ In 10%N l -> split 10 l = [l].
Proof.
  induction l as [|c l IH]; intros H; [reflexivity|].
  cbn [split].
  destruct (N.eqb_spec c 10) as [->|_]; [exfalso; apply H; now left|].
  rewrite IH by (intros Hin; apply H; now right). reflexivity.
Qed.

(** [split] undoes [join]: the lines of a text are the texts that the
    line feeds separate. *)
Lemma split_joinWith (ls : list JSString) :
  ls <> [] -> Forall (fun l => ~ In 10%N l) ls ->
  split 10 (joinWith [10%N] ls) = ls.
Proof.
  intros Hne H. destruct H as [|l ls Hl Hls]; [now elim Hne|]. clear Hne.
  revert l Hl. induction Hls as [|l' ls Hl' Hls IH]; intros l Hl.
  - cbn [joinWith]. now apply split_last_line.
  - change (joinWith [10%N] (l :: l' :: ls))
      with (l ++ [10%N] ++ joinWith [10%N] (l' :: ls)).
    cbn [app]. rewrite (@split_line l _ Hl). f_equal. apply IH, Hl'.
Qed.

Lemma isBracket_spec (c : CodeUnit) :
  isBracket c = true <-> In c (lit "{}[](),;").
Proof.
  unfold isBracket. rewrite !orb_true_iff, !N.eqb_eq. cbn.
  split; intros H; repeat destruct H as [H|H]; subst; auto 10; contradiction.
Qed.

Lemma brackets_only (l : JSString) :
  l <> [] /\ Forall (fun c => In c (lit "{}[](),;")) l <-> onlyBrackets l = true.
Proof.
  destruct l as [|c l].
  - split; [now intros [H _]|discriminate].
  - unfold onlyBrackets. rewrite forallb_forall, Forall_forall.
    split.
    + intros [_ H] x Hx. apply isBracket_spec, H, Hx.
    + intros H. split; [discriminate|]. intros x Hx. apply isBracket_spec, H, Hx.
Qed.

(** ** C9: code blocks without significant lines *)

Lemma isBracket_not_space (c : CodeUnit) : isBracket c = true -> isWhiteSpace c = false.
Proof.
  unfold isBracket. rewrite !orb_true_iff, !N.eqb_eq.
  intros H; repeat destruct H as [H|H]; subst c; reflexivity.
Qed.

Lemma trim_no_space (l : JSString) :
  Forall (fun c => isWhiteSpace c = false) l -> trim l = l.
Proof.
  intros H. unfold trim, trimStart, trimEnd.
  rewrite (dropWhile_id isWhiteSpace l).
  - rewrite dropWhile_id; [apply rev_involutive|].
    destruct (rev l) as [|c r] eqn:E; [exact I|].
    rewrite Forall_forall in H. apply H, in_rev. rewrite E. now left.
  - destruct l as [|c l]; [exact I|]. now inversion H.
Qed.

Lemma onlyBrackets_trim (l : JSString) : onlyBrackets l = true -> trim l = l.
Proof.
  intros H. apply trim_no_space.
  destruct l as [|c l]; [constructor|]. cbn [onlyBrackets] in H.
  rewrite forallb_forall in H. rewrite Forall_forall.
  intros x Hx. apply isBracket_not_space, H, Hx.
Qed.

(** C9. The lines of a code block are the texts between its line
    feeds. A block has no significant line exactly when every line,
    without the white space around it, has at most 3 code units or
    consists of the characters [{}[](),;] only; so it is with the lines
    that have at most 3 code units or consist of those characters as
    they stand. Such a block has the line-match rate 1 and is present,
    whatever the candidate. *)
Theorem code_block_without_significant_lines
    (nmdc : JSString) (ls : list JSString) :
  ls <> [] -> Forall (fun l => ~ In 10%N l) ls ->
  let code := joinWith [10%N] ls in
  let discarded l :=
    length (trim l) <= 3
    \/ (trim l <> [] /\ Forall (fun c => In c (lit "{}[](),;")) (trim l)) in
  (significantLines code = [] <-> Forall discarded ls)
  /\ (forall l, length l <= 3
                \/ (l <> [] /\ Forall (fun c => In c (lit "{}[](),;")) l) ->
                discarded l)
  /\ (Forall discarded ls ->
      lineMatchRate nmdc code = Num 1 /\ codeBlockPresent nmdc code = true).
Proof.
  intros Hne Hlf. cbv zeta.
  assert (E : significantLines (joinWith [10%N] ls) = []
              <-> Forall (fun l => length (trim l) <= 3
                                   \/ (trim l <> []
                                       /\ Forall (fun c => In c (lit "{}[](),;"))
                                            (trim l))) ls).
  { unfold significantLines. rewrite (@split_joinWith ls Hne Hlf).
    clear Hne Hlf. induction ls as [|l ls IH].
    - split; [constructor|reflexivity].
    - cbn [map filter].
      destruct ((3 <? length (trim l)) && negb (onlyBrackets (trim l)))%bool eqn:El.
      + split; [discriminate|]. intros H. inversion H as [|? ? Hl _]; subst.
        apply andb_true_iff in El as [E1 E2].
        apply Nat.ltb_lt in E1. apply negb_true_iff in E2.
        destruct Hl as [Hl|Hl]; [lia|].
        apply brackets_only in Hl. congruence.
      + rewrite IH. split; [|now intros H; inversion H].
        intros H. constructor; [|exact H].
        apply andb_false_iff in El as [E1|E2].
        * left. apply Nat.ltb_ge in E1. exact E1.
        * right. apply negb_false_iff in E2. now apply brackets_only. }
  split; [exact E|]. split.
  - intros l [Hl|Hl].
    + left. pose proof (trim_length l). lia.
    + right. apply brackets_only in Hl.
      rewrite (onlyBrackets_trim l Hl). now apply brackets_only.
  - intros H. apply E in H.
    assert (R : lineMatchRate nmdc (joinWith [10%N] ls) = Num 1)
      by (unfold lineMatchRate; rewrite H; reflexivity).
    split; [exact R|].
    unfold codeBlockPresent. rewrite R. reflexivity.
Qed.

Lemma code_block_without_significant_lines_witness :
  codeBlockPresent (normalizeCode (lit "nothing alike"))
    (lit "{" ++ [10%N] ++ lit "    }" ++ [10%N] ++ lit "  ab   ") = true.
Proof.
  assert (Hne : [lit "{"; lit "    }"; lit "  ab   "] <> []) by discriminate.
  assert (Hlf : Forall (fun l => ~ In 10%N l) [lit "{"; lit "    }"; lit "  ab   "]).
  { repeat constructor; intros H; cbn in H;
      repeat (destruct H as [H|H]; [discriminate H|]); exact H. }
  apply (proj2 (proj2 (@code_block_without_significant_lines
                         (normalizeCode (lit "nothing alike"))
                         [lit "{"; lit "    }"; lit "  ab   "] Hne Hlf))).
  repeat constructor; left; vm_compute; lia.
Defined.

(** ** Rates and thresholds *)

(** A quotient of two counts reaches [a/b] exactly when the cross
    products say so; without a second count the quotient is no number. *)
Lemma jsGe_jsDiv (m n : nat) (a b : positive) :
  m <= n ->
  jsGe (jsDiv m n) (Z.pos a # b) = true <->
  0 < n /\ Pos.to_nat a * n <= Pos.to_nat b * m.
Proof.
  intros Hmn. destruct n as [|n].
  - assert (m = 0) by lia. subst m. cbn [jsDiv jsGe].
    split; [discriminate|lia].
  - unfold jsDiv. cbn [jsGe]. rewrite Qle_bool_iff.
    unfold Qle, Qdiv, Qmult, Qinv, inject_Z.
    cbn [Qnum Qden Z.of_nat].
    rewrite Z.mul_1_r, Pos.mul_1_l.
    split.
    + intros H. split; [lia|]. nia.
    + intros [_ H]. nia.
Qed.

Lemma wordMatchRate_ge (nmd normalized : JSString) :
  let words := filter (fun w => 2 <? length w) (split 32 normalized) in
  let matching := filter (fun w => includes nmd w) words in
  jsGe (wordMatchRate nmd normalized) (6 # 10)
  = jsGe (jsDiv (length matching) (length words)) (6 # 10).
Proof.
  cbv zeta. unfold wordMatchRate, qualifyingWords, matchingWords.
  destruct (filter (fun w => 2 <? length w) (split 32 normalized)); reflexivity.
Qed.

(** ** C2: the word-overlap test *)

(** C2. A paragraph or list item is present exactly when the words of
    more than 2 code units of its normalized text, split on spaces, are
    found in the normalized candidate at a rate of at least 0.6, or the
    normalized text is longer than 20 code units (15 for a list item)
    and its first 50 code units (40 for a list item) stand in the
    normalized candidate. With 6 of 10 words found the item is present;
    with 5 of 10 it is missing unless its beginning stands in the
    candidate. The sampled paragraphs and list items that a run records
    missing are those that fail this test. *)
Theorem word_overlap_threshold
    (article : Article) (w : WebContent) (md item : JSString) :
  let nmd := normalizeText md in
  let normalized := normalizeText item in
  let words := filter (fun w => 2 <? length w) (split 32 normalized) in
  let matching := filter (fun w => includes nmd w) words in
  let rateReached := 0 < length words /\ 6 * length words <= 10 * length matching in
  let beginning minLength prefix :=
    minLength < length normalized
    /\ includes nmd (firstn (Nat.min prefix (length normalized)) normalized) = true in
  ((paragraphPresent nmd item = true <-> rateReached \/ beginning 20 50)
   /\ (listItemPresent nmd item = true <-> rateReached \/ beginning 15 40)
   /\ (length words = 10 -> length matching = 6 ->
       paragraphPresent nmd item = true /\ listItemPresent nmd item = true)
   /\ (length words = 10 -> length matching = 5 ->
       (paragraphPresent nmd item = true <-> beginning 20 50)
       /\ (listItemPresent nmd item = true <-> beginning 15 40)))
  /\ Missing.paragraphs (missing (verifyMarkdownContent article w md))
     = map preview
         (filter (fun p => negb (paragraphPresent nmd p))
            (paragraphsToCheck (paragraphs w)))
  /\ Missing.listItems (missing (verifyMarkdownContent article w md))
     = map preview
         (filter (fun i => negb (listItemPresent nmd i))
            (listItemsToCheck (listItems w))).
Proof.
  cbv zeta. split; [|split].
  - assert (Hp : forall minLength prefix,
               (jsGe (wordMatchRate (normalizeText md) (normalizeText item)) (6 # 10)
                || substringMatch (normalizeText md) minLength prefix
                     (normalizeText item))%bool = true
               <-> (0 < length (filter (fun w => 2 <? length w)
                                  (split 32 (normalizeText item)))
                    /\ 6 * length (filter (fun w => 2 <? length w)
                                     (split 32 (normalizeText item)))
                       <= 10 * length (filter (fun w => includes (normalizeText md) w)
                                         (filter (fun w => 2 <? length w)
                                            (split 32 (normalizeText item)))))
                   \/ (minLength < length (normalizeText item)
                       /\ includes (normalizeText md)
                            (firstn (Nat.min prefix (length (normalizeText item)))
                               (normalizeText item)) = true)).
    { intros minLength prefix.
      rewrite orb_true_iff, wordMatchRate_ge.
      generalize (normalizeText item). intros normalized.
      rewrite (jsGe_jsDiv 6 10) by apply filter_length_le.
      unfold substringMatch, substring0.
      rewrite andb_true_iff, Nat.ltb_lt.
      change (Pos.to_nat 6) with 6. change (Pos.to_nat 10) with 10.
      reflexivity. }
    unfold paragraphPresent, listItemPresent.
    split; [apply Hp|]. split; [apply Hp|]. split.
    + intros Hw Hm. rewrite !Hp, Hw, Hm. split; left; lia.
    + intros Hw Hm. rewrite !Hp, Hw, Hm.
      split; (split; [intros [H|H]; [lia|exact H]|now right]).
  - rewrite verifyMarkdownContent_stages. cbn [report missing].
    destruct (checkImages_lists article md (contentChecks w md))
      as (_ & _ & -> & _).
    pose proof (contentChecks_closed w md) as E. cbv zeta in E. rewrite E.
    reflexivity.
  - rewrite verifyMarkdownContent_stages. cbn [report missing].
    destruct (checkImages_lists article md (contentChecks w md))
      as (_ & _ & _ & _ & _ & ->).
    pose proof (contentChecks_closed w md) as E. cbv zeta in E. rewrite E.
    reflexivity.
Qed.

Lemma word_overlap_threshold_witness :
  paragraphPresent (normalizeText sixOfTen) foxParagraph = true
  /\ paragraphPresent (normalizeText fiveOfTen) foxParagraph = false
  /\ paragraphPresent (normalizeText greekBeginning) greekParagraph = true
  /\ paragraphPresent (normalizeText greekAltered) greekParagraph = false.
Proof.
  pose proof (@word_overlap_threshold undeclaredArticle emptyContent
                sixOfTen foxParagraph) as H6.
  pose proof (@word_overlap_threshold undeclaredArticle emptyContent
                fiveOfTen foxParagraph) as H5.
  pose proof (@word_overlap_threshold undeclaredArticle emptyContent
                greekBeginning greekParagraph) as Hb.
  pose proof (@word_overlap_threshold undeclaredArticle emptyContent
                greekAltered greekParagraph) as Ha.
  cbv zeta in H6, H5, Hb, Ha.
  destruct H6 as ((_ & _ & H6 & _) & _).
  destruct H5 as ((_ & _ & _ & H5) & _).
  destruct Hb as ((Hb & _) & _).
  destruct Ha as ((Ha & _) & _).
  split; [|split; [|split]].
  - apply H6; vm_compute; reflexivity.
  - apply not_true_is_false. intros H.
    apply (proj1 (H5 eq_refl eq_refl)) in H. destruct H as [_ H].
    vm_compute in H. discriminate H.
  - apply Hb. right. split; [vm_compute; lia|vm_compute; reflexivity].
  - apply not_true_is_false. intros H. apply Ha in H.
    destruct H as [[_ H]|[_ H]]; vm_compute in H; [lia|discriminate H].
Defined.

(** ** C7: items without words, and short items *)

(** C7, amended. An item without a word of more than 2 code units is
    present exactly when the substring fallback holds. For an item whose
    normalized text has at most 20 code units (paragraph) or at most 15
    (list item) the fallback is off: the item is present exactly when its
    word rate reaches 0.6. *)
Theorem fallback_and_short_items (nmd item : JSString) :
  let normalized := normalizeText item in
  (qualifyingWords normalized = [] ->
     paragraphPresent nmd item = substringMatch nmd 20 50 normalized
     /\ listItemPresent nmd item = substringMatch nmd 15 40 normalized)
  /\ (length normalized <= 20 ->
      paragraphPresent nmd item = jsGe (wordMatchRate nmd normalized) (6 # 10))
  /\ (length normalized <= 15 ->
      listItemPresent nmd item = jsGe (wordMatchRate nmd normalized) (6 # 10)).
Proof.
  cbv zeta. unfold paragraphPresent, listItemPresent, substringMatch.
  split; [|split].
  - intros E. unfold wordMatchRate. rewrite E. now split.
  - intros H. apply Nat.ltb_ge in H. rewrite H. apply orb_false_r.
  - intros H. apply Nat.ltb_ge in H. rewrite H. apply orb_false_r.
Qed.

Lemma fallback_and_short_items_witness :
  paragraphPresent (lit "a b c d e f g h i j k l") (lit "a b c d e f g h i j k l") = true
  /\ paragraphPresent (lit "a b c d e f") (lit "a b c d e f") = false
  /\ listItemPresent (lit "a b c d e f") (lit "a b c d e f") = false.
Proof.
  pose proof (fallback_and_short_items (lit "a b c d e f g h i j k l")
                (lit "a b c d e f g h i j k l")) as (H1 & _ & _).
  pose proof (fallback_and_short_items (lit "a b c d e f") (lit "a b c d e f"))
    as (_ & H2 & H3).
  cbv zeta in H1, H2, H3.
  split; [|split].
  - rewrite (proj1 (H1 eq_refl)). vm_compute. reflexivity.
  - rewrite H2; [|vm_compute; lia]. vm_compute. reflexivity.
  - rewrite H3; [|vm_compute; lia]. vm_compute. reflexivity.
Defined.

(** C7 as stated fails for short items: exact containment neither is
    needed nor suffices. The words of a short item found apart from each
    other make it present, and a short item without a word of more than
    2 code units is missing although the candidate contains it. *)
Lemma short_item_counterexample :
  (let nmd := normalizeText (lit "world of hello") in
   let item := lit "hello world" in
   length (normalizeText item) < 15
   /\ includes nmd (normalizeText item) = false
   /\ paragraphPresent nmd item = true
   /\ listItemPresent nmd item = true)
  /\
  (let nmd := normalizeText (lit "see a b c d e f here") in
   let item := lit "a b c d e f" in
   length (normalizeText item) < 15
   /\ includes nmd (normalizeText item) = true
   /\ paragraphPresent nmd item = false
   /\ listItemPresent nmd item = false).
Proof. cbv zeta. repeat split; vm_compute; reflexivity || lia. Qed.

(** ** C5: code blocks *)

Lemma onlyBrackets_spec (l : JSString) :
  onlyBrackets l = true <-> l <> [] /\ Forall (fun c => isBracket c = true) l.
Proof.
  destruct l as [|c l].
  - split; [discriminate|]. now intros [H _].
  - unfold onlyBrackets. rewrite forallb_forall, Forall_forall.
    split; [intros H; split; [discriminate|exact H]|now intros [_ H]].
Qed.

Lemma lineMatchRate_ge (nmdc code : JSString) :
  jsGe (lineMatchRate nmdc code) (6 # 10) = true <->
  6 * length (significantLines code)
  <= 10 * length (matchingLines nmdc (significantLines code)).
Proof.
  unfold lineMatchRate.
  destruct (significantLines code) as [|l ls] eqn:E.
  - cbn. split; [lia|reflexivity].
  - change (0 <? length (l :: ls)) with true. cbv iota.
    pose proof (@jsGe_jsDiv (length (matchingLines nmdc (l :: ls)))
                  (length (l :: ls)) 6 10) as H.
    change (Pos.to_nat 6) with 6 in H. change (Pos.to_nat 10) with 10 in H.
    rewrite H; [|apply filter_length_le].
    cbn [length]. lia.
Qed.

Lemma isBracket_existsb (c : CodeUnit) :
  existsb (N.eqb c) (lit "{}[](),;") = isBracket c.
Proof.
  unfold isBracket. cbn [lit List.map String.list_ascii_of_string existsb].
  cbn. now rewrite orb_false_r, !orb_assoc.
Qed.

(** The two tests of a significant line, one after the other. *)
Lemma significant_filter (ls : list JSString) :
  filter (fun l => ((3 <? length l) && negb (onlyBrackets l))%bool) ls
  = filter (fun l => 4 <=? length l)
      (filter (fun l => negb (forallb (fun c => existsb (N.eqb c) (lit "{}[](),;")) l))
         ls).
Proof.
  induction ls as [|l ls IH]; [reflexivity|].
  cbn [filter]. rewrite IH.
  assert (E : forallb (fun c => existsb (N.eqb c) (lit "{}[](),;")) l
              = forallb isBracket l).
  { clear. induction l as [|c l IHl]; [reflexivity|].
    cbn [forallb]. now rewrite IHl, isBracket_existsb. }
  rewrite E. destruct l as [|c l].
  - reflexivity.
  - unfold onlyBrackets.
    destruct (forallb isBracket (c :: l)); cbn [negb]; [now rewrite andb_false_r|].
    rewrite andb_true_r. cbn [filter]. reflexivity.
Qed.

(** C5, amended. The lines of a code block are the texts between its
    line feeds, each taken without the white space around it; a line is
    significant when it has at least 4 code units and does not consist
    of the characters [{}[](),;] only. The block is present exactly when
    at least 60% of the significant lines are substrings of the
    candidate, both under [normalizeCode], or the whole normalized block
    is a substring. Every code block of the reference is checked this
    way. *)
Theorem code_block_line_match
    (article : Article) (w : WebContent) (md : JSString) (ls : list JSString) :
  ls <> [] -> Forall (fun l => ~ In 10%N l) ls ->
  let code := joinWith [10%N] ls in
  let nmdc := normalizeCode md in
  let lines :=
    filter (fun l => 4 <=? length l)
      (filter (fun l => negb (forallb (fun c => existsb (N.eqb c) (lit "{}[](),;")) l))
         (map trim ls)) in
  let found := filter (fun l => includes nmdc (normalizeCode l)) lines in
  (codeBlockPresent nmdc code = true <->
      6 * length lines <= 10 * length found
      \/ includes nmdc (normalizeCode code) = true)
  /\ Missing.codeBlocks (missing (verifyMarkdownContent article w md))
     = map preview
         (filter (fun c => negb (codeBlockPresent nmdc c)) (codeBlocks w)).
Proof.
  intros Hne Hlf. cbv zeta. split.
  - unfold codeBlockPresent. rewrite orb_true_iff, lineMatchRate_ge.
    unfold significantLines. rewrite (@split_joinWith ls Hne Hlf).
    rewrite (significant_filter (map trim ls)). reflexivity.
  - rewrite verifyMarkdownContent_stages. cbn [report missing].
    destruct (checkImages_lists article md (contentChecks w md))
      as (_ & _ & _ & -> & _).
    pose proof (contentChecks_closed w md) as E. cbv zeta in E. rewrite E.
    reflexivity.
Qed.

Lemma code_block_line_match_witness :
  codeBlockPresent (normalizeCode (lit "foo bar baz")) indentedBracket = true.
Proof.
  assert (Hne : [lit "foo bar baz"; lit "    }"] <> []) by discriminate.
  assert (Hlf : Forall (fun l => ~ In 10%N l) [lit "foo bar baz"; lit "    }"]).
  { repeat constructor; intros H; cbn in H;
      repeat (destruct H as [H|H]; [discriminate H|]); exact H. }
  apply (proj1 (@code_block_line_match undeclaredArticle emptyContent
                  (lit "foo bar baz") [lit "foo bar baz"; lit "    }"] Hne Hlf)).
  left. vm_compute. lia.
Defined.

(** C5 as stated fails: the claim takes the lines as they stand, the
    code trims them first. A closing bracket after four spaces is a line
    of 5 code units that does not consist of brackets only, so as worded
    it is significant and one of two lines is found; trimmed it is a
    line of 1 code unit, discarded, and the one line left is found. *)
Lemma untrimmed_lines_counterexample :
  let nmdc := normalizeCode (lit "foo bar baz") in
  length (significantLinesAsWorded indentedBracket) = 2
  /\ length (filter (fun l => includes nmdc (normalizeCode l))
               (significantLinesAsWorded indentedBracket)) = 1
  /\ includes nmdc (normalizeCode indentedBracket) = false
  /\ codeBlockPresentAsWorded nmdc indentedBracket = false
  /\ length (significantLines indentedBracket) = 1
  /\ codeBlockPresent nmdc indentedBracket = true.
Proof. cbv zeta. repeat split; vm_compute; reflexivity. Qed.

Example code_block_three_of_five :
  length (significantLines fiveLines) = 5
  /\ codeBlockPresent (normalizeCode (lit "Let A = 1; then let b = 2; at last PRINT(c);"))
       fiveLines = true
  /\ codeBlockPresent (normalizeCode (lit "Let A = 1; at last PRINT(c);"))
       fiveLines = false.
Proof. repeat split; vm_compute; reflexivity. Qed.

(** ** C8: the length of a normalized text *)

(** Case analysis on the comparisons of a code unit with constants. *)
Ltac char_cases :=
  repeat match goal with
         | |- context [N.eqb ?a ?b] => destruct (N.eqb_spec a b); try lia
         | |- context [N.leb ?a ?b] => destruct (N.leb_spec a b); try lia
         end.

Section Weight.

Lemma weight_cons (c : CodeUnit) (s : JSString) : weight (c :: s) = weight1 c + weight s.
Proof. reflexivity. Qed.

Lemma weight_app (a b : JSString) : weight (a ++ b) = weight a + weight b.
Proof. unfold weight. now rewrite map_app, list_sum_app. Qed.

Lemma weight_rev (s : JSString) : weight (rev s) = weight s.
Proof.
  induction s as [|c s IH]; [reflexivity|].
  cbn [rev]. rewrite weight_app, IH, !weight_cons. cbn. lia.
Qed.

Lemma weight1_pos (c : CodeUnit) : 1 <= weight1 c.
Proof. unfold weight1. lia. Qed.



Lemma weight_dropWhile p (s : JSString) : weight (dropWhile p s) <= weight s.
Proof.
  induction s as [|c s IH]; [apply le_n|].
  cbn [dropWhile]. destruct (p c); [|apply le_n].
  rewrite weight_cons. lia.
Qed.

Lemma weight_trim (s : JSString) : weight (trim s) <= weight s.
Proof.
  unfold trim, trimEnd, trimStart. rewrite weight_rev.
  etransitivity; [apply weight_dropWhile|].
  rewrite weight_rev. apply weight_dropWhile.
Qed.

Lemma weight_collapse (b : bool) (s : JSString) : weight (collapseFrom b s) <= weight s.
Proof.
  revert b; induction s as [|c s IH]; intros b; [apply le_n|].
  cbn [collapseFrom]. pose proof (weight1_pos c).
  destruct (isWhiteSpace c).
  - destruct b; rewrite ?weight_cons; specialize (IH true);
      change (weight1 32) with 1; lia.
  - rewrite !weight_cons. specialize (IH false). lia.
Qed.

Lemma weight_flat_map (f : CodeUnit -> JSString) (s : JSString) :
  (forall c, weight (f c) <= weight1 c) -> weight (flat_map f s) <= weight s.
Proof.
  intros Hf. induction s as [|c s IH]; [apply le_n|].
  cbn [flat_map]. rewrite weight_app, weight_cons. specialize (Hf c). lia.
Qed.

Lemma weight_replaceClass p (rep s : JSString) :
  (forall c, p c = true -> weight rep <= weight1 c) ->
  weight (replaceClass p rep s) <= weight s.
Proof.
  intros H. apply weight_flat_map. intros c.
  destruct (p c) eqn:E; [now apply H|].
  unfold weight. cbn. lia.
Qed.

Lemma weight_skipn (n : nat) (s : JSString) :
  n <= length s -> n + weight (skipn n s) <= weight s.
Proof.
  revert s; induction n as [|n IH]; intros s H; [apply le_n|].
  destruct s as [|c s]; [simpl in H; lia|].
  cbn [skipn]. rewrite weight_cons. pose proof (weight1_pos c).
  simpl in H. specialize (IH s). lia.
Qed.

Lemma weight_skipn_le (n : nat) (s : JSString) : weight (skipn n s) <= weight s.
Proof.
  revert s; induction n as [|n IH]; intros s; [apply le_n|].
  destruct s as [|c s]; [apply le_n|].
  cbn [skipn]. rewrite weight_cons. specialize (IH s). lia.
Qed.

(** A replacement that is not heavier than the pattern is long. *)
Lemma weight_replaceFrom eqc (pat rep : JSString) (k : nat) (s : JSString) :
  weight rep <= length pat ->
  weight (replaceFrom eqc pat rep k s) <= weight (skipn k s).
Proof.
  intros Hrep. revert k; induction s as [|c s IH]; intros k.
  - destruct k; apply le_n.
  - destruct k as [|k]; cbn [replaceFrom skipn]; [|apply IH].
    destruct (startsWith eqc pat (c :: s)) eqn:E.
    + apply startsWith_length in E. cbn [length] in E.
      rewrite weight_app, weight_cons.
      specialize (IH (length pat - 1)).
      pose proof (@weight_skipn (length pat - 1) s).
      pose proof (weight1_pos c). lia.
    + rewrite !weight_cons. specialize (IH 0). cbn [skipn] in IH. lia.
Qed.

Lemma weight_replaceAll (pat rep s : JSString) :
  weight rep <= length pat -> weight (replaceAll pat rep s) <= weight s.
Proof. intros H. apply (@weight_replaceFrom N.eqb pat rep 0 s H). Qed.

Lemma weight_lowerUnit (c : CodeUnit) : weight (lowerUnit c) <= weight1 c.
Proof.
  unfold lowerUnit, weight, weight1, isArrow, isDottedI, inRange.
  cbn [map list_sum]. char_cases; cbn; char_cases; cbn; lia.
Qed.

Lemma weight_toLowerCase (s : JSString) : weight (toLowerCase s) <= weight s.
Proof. apply weight_flat_map, weight_lowerUnit. Qed.

End Weight.

Lemma weight_replaceClass_light p (rep s : JSString) :
  weight rep <= 1 -> weight (replaceClass p rep s) <= weight s.
Proof.
  intros H. apply weight_replaceClass. intros c _.
  pose proof (weight1_pos c). lia.
Qed.

Lemma weight_replaceArrow (s : JSString) :
  weight (replaceClass isArrow (lit "->") s) <= weight s.
Proof.
  apply weight_replaceClass. intros c Hc.
  unfold weight1. rewrite Hc. cbn. lia.
Qed.

Lemma weight_replaceFrom0 eqc (pat rep s : JSString) :
  weight rep <= length pat -> weight (replaceFrom eqc pat rep 0 s) <= weight s.
Proof. intros H. apply (@weight_replaceFrom eqc pat rep 0 s H). Qed.

Ltac weight_step :=
  etransitivity;
  [ first [ apply weight_toLowerCase
          | apply weight_replaceArrow
          | apply weight_replaceClass_light; cbv; lia
          | apply weight_replaceFrom0; cbv; lia
          | apply weight_collapse
          | apply weight_trim ] | ].


Lemma weight_normalizeCode (s : JSString) : weight (normalizeCode s) <= weight s.
Proof.
  unfold normalizeCode, replaceAll, collapseSpaces. cbv zeta.
  do 9 weight_step. apply le_n.
Qed.




(** ** White space and words *)

Unset Implicit Arguments.

Section Spacing.








Lemma dropWhile_head p (s : JSString) (c : CodeUnit) (r : JSString) :
  dropWhile p s = c :: r -> p c = false.
Proof.
  induction s as [|x s IH]; [discriminate|].
  cbn [dropWhile]. destruct (p x) eqn:E; [exact IH|].
  intros H. injection H as -> _. exact E.
Qed.



End Spacing.

Section Words.

Lemma spacedFrom_word_run (b : bool) (ds rest : JSString) :
  ds <> [] -> Forall isWord ds ->
  spacedFrom b (ds ++ rest) = spacedFrom false rest.
Proof.
  revert b; induction ds as [|d ds IH]; intros b Hne Hw; [congruence|].
  inversion Hw as [|? ? Hd Hds]; subst.
  cbn [app spacedFrom]. rewrite Hd.
  destruct ds as [|d' ds]; [reflexivity|].
  apply IH; [discriminate|exact Hds].
Qed.

Variable f : CodeUnit -> JSString.
Variable P : CodeUnit -> Prop.
Hypothesis f_space : forall c, P c -> isWhiteSpace c = true -> f c = [c].
Hypothesis f_word :
  forall c, P c -> isWhiteSpace c = false -> f c <> [] /\ Forall isWord (f c).

(** A substitution that keeps the spaces and turns a word character
    into word characters keeps a text spaced. *)
Lemma spacedFrom_flat_map (b : bool) (s : JSString) :
  Forall P s -> spacedFrom b s = true -> spacedFrom b (flat_map f s) = true.
Proof.
  revert b; induction s as [|c s IH]; intros b HP H; [exact H|].
  inversion HP as [|? ? Hc Hs]; subst.
  cbn [flat_map]. cbn [spacedFrom] in H.
  destruct (isWhiteSpace c) eqn:E.
  - rewrite (f_space c Hc E). cbn [app spacedFrom]. rewrite E.
    apply andb_true_iff in H as [H1 H2]. rewrite H1. cbn [andb].
    now rewrite (IH true Hs H2).
  - destruct (f_word c Hc E) as [Hne Hw].
    rewrite (spacedFrom_word_run b _ _ Hne Hw). now apply IH.
Qed.

Lemma spaced_flat_map (s : JSString) :
  Forall P s -> spaced s = true -> spaced (flat_map f s) = true.
Proof.
  intros HP H. destruct s as [|c s]; [reflexivity|].
  cbn [spaced] in H. pose proof (spacedFrom_flat_map true _ HP H) as H'.
  destruct (flat_map f (c :: s)); [reflexivity|exact H'].
Qed.

End Words.

Section Unchanged.





Lemma Forall_dropWhile (Q : CodeUnit -> Prop) p (s : JSString) :
  Forall Q s -> Forall Q (dropWhile p s).
Proof.
  induction 1 as [|c s Hc Hs IH]; [constructor|].
  cbn [dropWhile]. destruct (p c); [exact IH|now constructor].
Qed.

Lemma Forall_trim (Q : CodeUnit -> Prop) (s : JSString) :
  Forall Q s -> Forall Q (trim s).
Proof.
  intros H. unfold trim, trimEnd, trimStart.
  apply Forall_rev, Forall_dropWhile, Forall_rev, Forall_dropWhile, H.
Qed.

End Unchanged.

(** ** Code units after the first two steps *)

Ltac char_unfold :=
  unfold settled, tidy, isWord, plain, isMarkup, isInvisible, isVariousSpace,
    isNbsp, isTimes, isArrow, isMinus, isApostrophe, isDoubleQuote, isWhiteSpace,
    isLowerLetter, eqIgnoreCase, canonicalize, lowerUnit, inRange,
    backslash, dollar, caret in *.

(** Decides a statement about one code unit by the comparisons in it. *)
Ltac char_solve :=
  char_unfold; char_cases; cbn;
  repeat split; intros; try reflexivity; try discriminate; try lia.

Section CodeUnits.

Lemma lowerLetter_settled (d : CodeUnit) :
  isLowerLetter d = true -> settled d /\ isWord d.
Proof. char_solve. Qed.

Lemma lowerUnit_cases (c : CodeUnit) :
  lowerUnit c = [c]
  \/ (exists d, lowerUnit c = [d] /\ isLowerLetter d = true)
  \/ lowerUnit c = [0x69; 0x307]%N.
Proof.
  unfold lowerUnit.
  destruct (inRange 0x41 0x5A c) eqn:E1;
    [right; left; exists (c + 32)%N; split; [reflexivity|revert E1; char_solve]|].
  destruct (inRange 0xC0 0xDE c && negb (N.eqb c 0xD7))%bool eqn:E2;
    [right; left; exists (c + 32)%N; split; [reflexivity|revert E2; char_solve]|].
  destruct (N.eqb c 0x130); [now right; right|].
  destruct (inRange 0x400 0x40F c) eqn:E3;
    [right; left; exists (c + 80)%N; split; [reflexivity|revert E3; char_solve]|].
  destruct (inRange 0x410 0x42F c) eqn:E4;
    [right; left; exists (c + 32)%N; split; [reflexivity|revert E4; char_solve]|].
  now left.
Qed.


End CodeUnits.

(** ** The steps after the white space *)

Section Substitutions.

Lemma normalizeText_steps (s : JSString) :
  normalizeText s = substitutions (collapseSpaces (trim s)).
Proof. reflexivity. Qed.

Lemma Forall_replaceClass (Q : CodeUnit -> Prop) p (rep s : JSString) :
  Forall Q rep -> Forall Q s -> Forall Q (replaceClass p rep s).
Proof.
  intros Hr Hs. apply Forall_flat_map.
  eapply Forall_impl; [|exact Hs]. intros c Hc.
  destruct (p c); [exact Hr|now constructor].
Qed.



End Substitutions.

Example normalize_sampleText :
  normalizeText sampleText = lit "the set a x b -> c is 'closed'".
Proof. vm_compute. reflexivity. Qed.

(** * Further properties of the script *)

(** ** White space: what the first two steps keep *)

Section Squeeze.

Lemma dropLastSpace_space (x : JSString) : dropLastSpace (x ++ [32%N]) = x.
Proof.
  induction x as [|c x IH]; [reflexivity|].
  cbn [app dropLastSpace]. rewrite IH.
  destruct x; reflexivity.
Qed.

Lemma dropLastSpace_word (x : JSString) (c : CodeUnit) :
  isWhiteSpace c = false -> dropLastSpace (x ++ [c]) = x ++ [c].
Proof.
  intros Hc. induction x as [|d x IH].
  - cbn. destruct (N.eqb_spec c 32) as [->|]; [discriminate Hc|reflexivity].
  - cbn [app dropLastSpace]. rewrite IH. destruct x; reflexivity.
Qed.

Lemma dropLastSpace_app (u v : JSString) :
  v <> [] -> dropLastSpace (u ++ v) = u ++ dropLastSpace v.
Proof.
  intros Hv. induction u as [|d u IH]; [reflexivity|].
  cbn [app dropLastSpace]. rewrite IH.
  destruct (u ++ v) eqn:E; [|reflexivity].
  apply app_eq_nil in E. now destruct E.
Qed.

Lemma dropWhile_app_all p (a b : JSString) :
  Forall (fun c => p c = true) a -> dropWhile p (a ++ b) = dropWhile p b.
Proof.
  induction 1 as [|c a Hc _ IH]; [reflexivity|].
  cbn [app dropWhile]. now rewrite Hc.
Qed.

Lemma dropWhile_prefix_all p (s : JSString) :
  exists pre, s = pre ++ dropWhile p s /\ Forall (fun c => p c = true) pre.
Proof.
  induction s as [|c s (pre & E & H)]; [now exists []|].
  cbn [dropWhile]. destruct (p c) eqn:Ec; [|now exists []].
  exists (c :: pre). split; [cbn; now f_equal|now constructor].
Qed.

(** Collapsing across a word character. *)
Lemma collapseFrom_word (p : bool) (x y : JSString) (c : CodeUnit) :
  isWhiteSpace c = false ->
  collapseFrom p (x ++ c :: y) = collapseFrom p x ++ c :: collapseFrom false y.
Proof.
  intros Hc. revert p; induction x as [|d x IH]; intros p.
  - cbn [app collapseFrom]. now rewrite Hc.
  - cbn [app collapseFrom]. destruct (isWhiteSpace d).
    + destruct p; rewrite IH; reflexivity.
    + now rewrite IH.
Qed.

Lemma collapseFrom_allSpace (p : bool) (w : JSString) :
  allSpace w ->
  collapseFrom p w = if p then [] else match w with [] => [] | _ => [32%N] end.
Proof.
  intros H. revert p; induction H as [|c w Hc _ IH]; intros p.
  - now destruct p.
  - cbn [collapseFrom]. rewrite Hc. destruct p; rewrite IH; reflexivity.
Qed.

Lemma collapseFrom_space_run (p : bool) (r b : JSString) :
  allSpace r -> r <> [] ->
  collapseFrom p (r ++ b) = (if p then [] else [32%N]) ++ collapseFrom true b.
Proof.
  intros H Hne. revert p; induction H as [|c r Hc Hr IH]; intros p; [congruence|].
  cbn [app collapseFrom]. rewrite Hc.
  destruct r as [|c' r].
  - now destruct p.
  - destruct p; rewrite IH by discriminate; reflexivity.
Qed.

(** A run of white space collapses the same whatever its length. *)
Lemma collapseFrom_any_run (p : bool) (a r1 r2 b : JSString) :
  allSpace r1 -> r1 <> [] -> allSpace r2 -> r2 <> [] ->
  collapseFrom p (a ++ r1 ++ b) = collapseFrom p (a ++ r2 ++ b).
Proof.
  intros H1 N1 H2 N2. revert p; induction a as [|c a IH]; intros p.
  - cbn [app]. now rewrite !collapseFrom_space_run.
  - cbn [app collapseFrom]. destruct (isWhiteSpace c); [destruct p|];
      now rewrite IH.
Qed.

Lemma trimEnd_app_space (x post : JSString) :
  allSpace post -> trimEnd (x ++ post) = trimEnd x.
Proof.
  intros H. unfold trimEnd. rewrite rev_app_distr.
  rewrite dropWhile_app_all; [reflexivity|]. now apply Forall_rev.
Qed.

(** A text is its trimmed end followed by white space. *)
Lemma trimEnd_split (u : JSString) :
  exists w, u = trimEnd u ++ w /\ allSpace w
            /\ (trimEnd u = []
                \/ exists v c, trimEnd u = v ++ [c] /\ isWhiteSpace c = false).
Proof.
  unfold trimEnd.
  destruct (dropWhile_prefix_all isWhiteSpace (rev u)) as (pre & E & Hpre).
  exists (rev pre). split; [|split].
  - rewrite <- rev_app_distr, <- E. symmetry. apply rev_involutive.
  - now apply Forall_rev.
  - destruct (dropWhile isWhiteSpace (rev u)) as [|c r] eqn:Ed; [now left|].
    right. exists (rev r), c. split; [reflexivity|].
    apply (dropWhile_head _ _ _ _ Ed).
Qed.

Lemma collapseFrom_trimEnd (p : bool) (u : JSString) :
  collapseFrom p (trimEnd u) = dropLastSpace (collapseFrom p u).
Proof.
  destruct (trimEnd_split u) as (w & E & Hw & [Hv|(v & c & Hv & Hc)]).
  - rewrite Hv in *. cbn [app] in E. subst w.
    rewrite (collapseFrom_allSpace p u Hw).
    destruct p; [reflexivity|]. now destruct u.
  - rewrite E at 2. rewrite Hv, <- app_assoc. cbn [app].
    rewrite !collapseFrom_word by exact Hc. cbn [collapseFrom].
    rewrite (collapseFrom_allSpace false w Hw).
    destruct w.
    + now rewrite dropLastSpace_word.
    + change (collapseFrom p v ++ [c; 32%N])
        with (collapseFrom p v ++ [c] ++ [32%N]).
      now rewrite app_assoc, dropLastSpace_space.
Qed.

Lemma collapseFrom_trimStart (s : JSString) :
  collapseFrom false (trimStart s) = collapseFrom true s.
Proof.
  unfold trimStart. induction s as [|c s IH]; [reflexivity|].
  cbn [dropWhile collapseFrom]. destruct (isWhiteSpace c) eqn:E; [exact IH|].
  cbn [collapseFrom]. now rewrite E.
Qed.

(** The first two steps of both normalizers. *)
Lemma collapse_trim_squeeze (s : JSString) :
  collapseSpaces (trim s) = squeeze s.
Proof.
  unfold collapseSpaces, trim, squeeze.
  now rewrite collapseFrom_trimEnd, collapseFrom_trimStart.
Qed.

Lemma collapseFrom_leading_space (pre y : JSString) :
  allSpace pre -> collapseFrom true (pre ++ y) = collapseFrom true y.
Proof.
  induction 1 as [|c pre Hc _ IH]; [reflexivity|].
  cbn [app collapseFrom]. now rewrite Hc.
Qed.

Lemma squeeze_surrounded (pre s post : JSString) :
  allSpace pre -> allSpace post -> squeeze (pre ++ s ++ post) = squeeze s.
Proof.
  intros Hpre Hpost. unfold squeeze.
  rewrite (collapseFrom_leading_space pre _ Hpre).
  rewrite <- !collapseFrom_trimEnd.
  now rewrite trimEnd_app_space.
Qed.

Lemma squeeze_any_run (a r1 r2 b : JSString) :
  allSpace r1 -> r1 <> [] -> allSpace r2 -> r2 <> [] ->
  squeeze (a ++ r1 ++ b) = squeeze (a ++ r2 ++ b).
Proof.
  intros H1 N1 H2 N2. unfold squeeze.
  now rewrite (collapseFrom_any_run true a r1 r2 b H1 N1 H2 N2).
Qed.

End Squeeze.

Lemma normalizeText_squeeze (s : JSString) :
  normalizeText s = substitutions (squeeze s).
Proof. rewrite normalizeText_steps. now rewrite collapse_trim_squeeze. Qed.

Lemma normalizeCode_squeeze (s : JSString) :
  normalizeCode s = codeSubstitutions (squeeze s).
Proof.
  rewrite <- collapse_trim_squeeze. reflexivity.
Qed.

(** X1. White space around a text is ignored by both normalizers. *)
Theorem surrounding_space_ignored (pre s post : JSString) :
  allSpace pre -> allSpace post ->
  normalizeText (pre ++ s ++ post) = normalizeText s
  /\ normalizeCode (pre ++ s ++ post) = normalizeCode s.
Proof.
  intros Hpre Hpost.
  rewrite !normalizeText_squeeze, !normalizeCode_squeeze.
  now rewrite (squeeze_surrounded pre s post Hpre Hpost).
Qed.

Lemma surrounding_space_ignored_witness :
  normalizeText (lit "  " ++ lit "Deep Theory" ++ [10; 9]%N)
  = normalizeText (lit "Deep Theory")
  /\ normalizeCode (lit "  " ++ lit "Deep Theory" ++ [10; 9]%N)
     = normalizeCode (lit "Deep Theory").
Proof.
  apply (surrounding_space_ignored (lit "  ") (lit "Deep Theory") [10; 9]%N);
    repeat constructor.
Defined.


(** X2. Two runs of white space, of any length and of any white-space
    characters, are the same to both normalizers. *)
Theorem space_runs_equivalent (a r1 r2 b : JSString) :
  allSpace r1 -> r1 <> [] -> allSpace r2 -> r2 <> [] ->
  normalizeText (a ++ r1 ++ b) = normalizeText (a ++ r2 ++ b)
  /\ normalizeCode (a ++ r1 ++ b) = normalizeCode (a ++ r2 ++ b).
Proof.
  intros H1 N1 H2 N2.
  rewrite !normalizeText_squeeze, !normalizeCode_squeeze.
  now rewrite (squeeze_any_run a r1 r2 b H1 N1 H2 N2).
Qed.

Lemma space_runs_equivalent_witness :
  normalizeText (lit "Deep" ++ lit " " ++ lit "Theory")
  = normalizeText (lit "Deep" ++ [10; 32; 9]%N ++ lit "Theory")
  /\ normalizeCode (lit "Deep" ++ lit " " ++ lit "Theory")
     = normalizeCode (lit "Deep" ++ [10; 32; 9]%N ++ lit "Theory").
Proof.
  apply (space_runs_equivalent (lit "Deep") (lit " ") [10; 32; 9]%N (lit "Theory"));
    first [discriminate | repeat constructor].
Defined.


(** ** Symbols and their escapes *)

Section Escapes.

Lemma collapseFrom_allWord (X y : JSString) :
  allWord X -> collapseFrom false (X ++ y) = X ++ collapseFrom false y.
Proof.
  induction 1 as [|c X Hc _ IH]; [reflexivity|].
  cbn [app collapseFrom]. now rewrite Hc, IH.
Qed.

Lemma collapseFrom_word_run (p : bool) (x X y : JSString) :
  allWord X -> X <> [] ->
  collapseFrom p (x ++ X ++ y) = collapseFrom p x ++ X ++ collapseFrom false y.
Proof.
  intros HX Hne. destruct X as [|c X]; [congruence|].
  inversion HX as [|? ? Hc HX']; subst.
  cbn [app]. rewrite (collapseFrom_word p x (X ++ y) c Hc).
  now rewrite (collapseFrom_allWord X y HX').
Qed.

(** A run of word characters stays where it is through the first two
    steps, and what surrounds it does not depend on it. *)
Lemma squeeze_word_run (a X b : JSString) :
  allWord X -> X <> [] ->
  squeeze (a ++ X ++ b)
  = collapseFrom true a ++ X ++ dropLastSpace (collapseFrom false b).
Proof.
  intros HX Hne. unfold squeeze.
  rewrite (collapseFrom_word_run true a X b HX Hne).
  destruct (collapseFrom false b) as [|d v] eqn:E.
  - rewrite app_nil_r. cbn [dropLastSpace]. rewrite app_nil_r.
    destruct (exists_last Hne) as (X0 & c & ->).
    rewrite app_assoc. apply dropLastSpace_word.
    apply Forall_app in HX as [_ HX]. now inversion HX.
  - rewrite dropLastSpace_app
      by (intros H; apply app_eq_nil in H; destruct H; congruence).
    f_equal. apply dropLastSpace_app. discriminate.
Qed.

Lemma replaceClass_app p (rep a b : JSString) :
  replaceClass p rep (a ++ b) = replaceClass p rep a ++ replaceClass p rep b.
Proof. apply flat_map_app. Qed.

Lemma toLowerCase_app (a b : JSString) :
  toLowerCase (a ++ b) = toLowerCase a ++ toLowerCase b.
Proof. apply flat_map_app. Qed.

Lemma startsWith_app_r eqc (pat a y : JSString) :
  startsWith eqc pat a = true -> startsWith eqc pat (a ++ y) = true.
Proof.
  revert a; induction pat as [|p pat IH]; intros a H; [reflexivity|].
  destruct a as [|c a]; [discriminate|].
  cbn [startsWith app] in *. apply andb_true_iff in H as [H1 H2].
  now rewrite H1, (IH a H2).
Qed.

(** A match cannot reach a code unit that the rest of the pattern does
    not contain. *)
Lemma startsWith_barrier (pat a : JSString) (h : CodeUnit) (t : JSString) :
  Forall (fun p => N.eqb p h = false) pat ->
  startsWith N.eqb pat (a ++ h :: t) = true ->
  length pat <= length a /\ startsWith N.eqb pat a = true.
Proof.
  intros Hh. revert a; induction Hh as [|p pat Hp _ IH]; intros a H.
  - split; [apply Nat.le_0_l|reflexivity].
  - destruct a as [|c a]; cbn [app startsWith] in H.
    + rewrite Hp in H. discriminate.
    + apply andb_true_iff in H as [H1 H2]. destruct (IH a H2) as [L S].
      split; [cbn; lia|]. cbn [startsWith]. now rewrite H1, S.
Qed.

Lemma replaceFrom_barrier (p0 : CodeUnit) (pat rep : JSString)
    (h : CodeUnit) (t a : JSString) (k : nat) :
  Forall (fun p => N.eqb p h = false) pat ->
  k <= length a ->
  replaceFrom N.eqb (p0 :: pat) rep k (a ++ h :: t)
  = replaceFrom N.eqb (p0 :: pat) rep k a
    ++ replaceFrom N.eqb (p0 :: pat) rep 0 (h :: t).
Proof.
  intros Hh. revert k; induction a as [|c a IH]; intros k Hk.
  - cbn [length] in Hk. assert (k = 0) by lia. subst k. reflexivity.
  - destruct k as [|k].
    + cbn [app]. cbn [replaceFrom].
      destruct (startsWith N.eqb (p0 :: pat) (c :: a ++ h :: t)) eqn:E.
      * cbn [startsWith] in E. apply andb_true_iff in E as [E1 E2].
        destruct (startsWith_barrier pat a h t Hh E2) as [L S].
        cbn [startsWith]. rewrite E1, S. cbn [andb length].
        rewrite IH by lia. now rewrite app_assoc.
      * destruct (startsWith N.eqb (p0 :: pat) (c :: a)) eqn:E'.
        -- apply (startsWith_app_r N.eqb (p0 :: pat) (c :: a) (h :: t)) in E'.
           cbn [app] in E'. congruence.
        -- rewrite IH by lia. reflexivity.
    + cbn [app replaceFrom]. apply IH. cbn [length] in Hk. lia.
Qed.

Lemma replaceFrom_skip (p0 : CodeUnit) (pat rep l b : JSString) :
  replaceFrom N.eqb (p0 :: pat) rep (length l) (l ++ b)
  = replaceFrom N.eqb (p0 :: pat) rep 0 b.
Proof.
  induction l as [|c l IH]; [reflexivity|].
  cbn [length app replaceFrom]. exact IH.
Qed.

Lemma replaceFrom_no_start (p0 : CodeUnit) (pat rep r b : JSString) :
  Forall (fun c => N.eqb p0 c = false) r ->
  replaceFrom N.eqb (p0 :: pat) rep 0 (r ++ b)
  = r ++ replaceFrom N.eqb (p0 :: pat) rep 0 b.
Proof.
  induction 1 as [|c r Hc _ IH]; [reflexivity|].
  cbn [app replaceFrom startsWith]. rewrite Hc. cbn [andb]. now rewrite IH.
Qed.

Lemma replaceFrom_at_pattern (p0 : CodeUnit) (pat rep b : JSString) :
  replaceFrom N.eqb (p0 :: pat) rep 0 (p0 :: pat ++ b)
  = rep ++ replaceFrom N.eqb (p0 :: pat) rep 0 b.
Proof.
  cbn [replaceFrom].
  change (p0 :: pat ++ b) with ((p0 :: pat) ++ b).
  rewrite (startsWith_app (p0 :: pat) b).
  replace (length (p0 :: pat) - 1) with (length pat) by (cbn [length]; lia).
  now rewrite replaceFrom_skip.
Qed.

(** Where the pattern stands, its replacement may stand as well: the
    replacement of a pattern whose first code unit occurs in it only
    once, by a text without that code unit which starts with a code
    unit foreign to the rest of the pattern. *)
Lemma replaceAll_pattern_or_replacement
    (p0 : CodeUnit) (pat : JSString) (x : CodeUnit) (rep' a b : JSString) :
  Forall (fun p => N.eqb p p0 = false) pat ->
  Forall (fun p => N.eqb p x = false) pat ->
  Forall (fun c => N.eqb p0 c = false) (x :: rep') ->
  replaceAll (p0 :: pat) (x :: rep') (a ++ (p0 :: pat) ++ b)
  = replaceAll (p0 :: pat) (x :: rep') (a ++ (x :: rep') ++ b).
Proof.
  intros Hp Hx Hr. unfold replaceAll. cbn [app].
  rewrite (replaceFrom_barrier p0 pat (x :: rep') p0 (pat ++ b) a 0 Hp (Nat.le_0_l _)).
  rewrite (replaceFrom_barrier p0 pat (x :: rep') x (rep' ++ b) a 0 Hx (Nat.le_0_l _)).
  f_equal. rewrite replaceFrom_at_pattern.
  change (x :: rep' ++ b) with ((x :: rep') ++ b).
  now rewrite (replaceFrom_no_start p0 pat (x :: rep') (x :: rep') b Hr).
Qed.

End Escapes.

Section EscapeEquivalence.

Lemma substitutions_parts (s : JSString) :
  substitutions s = fromMinus (replaceAll toEscape (lit "->") (untilArrow s)).
Proof. reflexivity. Qed.

Lemma codeSubstitutions_parts (s : JSString) :
  codeSubstitutions s
  = codeFromDollar (replaceAll timesEscape (lit "x") (codeUntilTimes s)).
Proof. reflexivity. Qed.

Lemma untilTimes_app (a b : JSString) :
  untilTimes (a ++ b) = untilTimes a ++ untilTimes b.
Proof. unfold untilTimes. cbv zeta. now rewrite !replaceClass_app. Qed.

Lemma codeUntilTimes_app (a b : JSString) :
  codeUntilTimes (a ++ b) = codeUntilTimes a ++ codeUntilTimes b.
Proof. unfold codeUntilTimes. cbv zeta. now rewrite !replaceClass_app. Qed.

Lemma timesEscape_facts :
  Forall (fun p => N.eqb p backslash = false) (lit "times")
  /\ Forall (fun p => N.eqb p 120 = false) (lit "times")
  /\ Forall (fun c => N.eqb backslash c = false) (lit "x").
Proof. repeat split; repeat constructor. Qed.

Lemma toEscape_facts :
  Forall (fun p => N.eqb p backslash = false) (lit "to")
  /\ Forall (fun p => N.eqb p 45 = false) (lit "to")
  /\ Forall (fun c => N.eqb backslash c = false) (lit "->").
Proof. repeat split; repeat constructor. Qed.

(** The replacement of [\times] on both sides of a piece that it leaves
    alone: an arrow, or the escape of the arrow. *)
Lemma replaceTimes_around (mid a b : JSString) :
  mid = toEscape \/ mid = [0x2192%N] \/ mid = [0x21A6%N] ->
  replaceAll timesEscape (lit "x") (a ++ mid ++ b)
  = replaceAll timesEscape (lit "x") a ++ mid
    ++ replaceAll timesEscape (lit "x") b.
Proof.
  unfold replaceAll, timesEscape.
  intros [->|[->| ->]]; cbn [app toEscape lit];
    (rewrite replaceFrom_barrier; [|repeat constructor|apply Nat.le_0_l]);
    reflexivity.
Qed.

Lemma replaceArrow_app (a b : JSString) :
  replaceClass isArrow (lit "->") (a ++ b)
  = replaceClass isArrow (lit "->") a ++ replaceClass isArrow (lit "->") b.
Proof. apply replaceClass_app. Qed.

Lemma untilArrow_around (mid a b : JSString) :
  mid = toEscape \/ mid = [0x2192%N] \/ mid = [0x21A6%N] ->
  untilArrow (a ++ mid ++ b)
  = untilArrow a ++ replaceClass isArrow (lit "->") mid ++ untilArrow b.
Proof.
  intros H. unfold untilArrow. rewrite !untilTimes_app.
  assert (E : untilTimes mid = mid) by (destruct H as [->|[->| ->]]; reflexivity).
  rewrite E, (replaceTimes_around mid _ _ H).
  now rewrite !replaceArrow_app.
Qed.

End EscapeEquivalence.

(** X3. A multiplication sign and its escape [\times] are the same to both
    normalizers, wherever they stand; so are, to [normalizeText], the two
    arrows and the escape [\to]. *)
Theorem escapes_equivalent (a b : JSString) :
  normalizeText (a ++ timesEscape ++ b) = normalizeText (a ++ [0xD7%N] ++ b)
  /\ normalizeCode (a ++ timesEscape ++ b) = normalizeCode (a ++ [0xD7%N] ++ b)
  /\ normalizeText (a ++ toEscape ++ b) = normalizeText (a ++ [0x2192%N] ++ b)
  /\ normalizeText (a ++ [0x21A6%N] ++ b) = normalizeText (a ++ [0x2192%N] ++ b).
Proof.
  destruct timesEscape_facts as (T1 & T2 & T3).
  destruct toEscape_facts as (A1 & A2 & A3).
  rewrite !normalizeText_squeeze, !normalizeCode_squeeze.
  rewrite !squeeze_word_run by first [discriminate | repeat constructor].
  generalize (collapseFrom true a) (dropLastSpace (collapseFrom false b)).
  intros u v. split; [|split; [|split]].
  - rewrite !substitutions_parts. do 2 f_equal. unfold untilArrow. f_equal.
    rewrite !untilTimes_app.
    change (untilTimes timesEscape) with timesEscape.
    change (untilTimes [0xD7%N]) with (lit "x").
    apply (replaceAll_pattern_or_replacement backslash (lit "times") 120 []
             _ _ T1 T2 T3).
  - rewrite !codeSubstitutions_parts. f_equal.
    rewrite !codeUntilTimes_app.
    change (codeUntilTimes timesEscape) with timesEscape.
    change (codeUntilTimes [0xD7%N]) with (lit "x").
    apply (replaceAll_pattern_or_replacement backslash (lit "times") 120 []
             _ _ T1 T2 T3).
  - rewrite !substitutions_parts. f_equal.
    rewrite !untilArrow_around by auto.
    change (replaceClass isArrow (lit "->") toEscape) with toEscape.
    change (replaceClass isArrow (lit "->") [0x2192%N]) with (lit "->").
    apply (replaceAll_pattern_or_replacement backslash (lit "to") 45 (lit ">")
             _ _ A1 A2 A3).
  - rewrite !substitutions_parts. do 2 f_equal.
    now rewrite !untilArrow_around by auto.
Qed.

Example times_in_formula :
  normalizeText (lit "A \times B \to C") = lit "a x b -> c".
Proof. vm_compute. reflexivity. Qed.

(** ** The alphabet of a normalized text *)

Section Alphabet.

Variable q : CodeUnit -> bool.

Lemma every_replaceClass p (rep s : JSString) :
  every q rep -> every q s -> every q (replaceClass p rep s).
Proof. apply Forall_replaceClass. Qed.


Lemma every_replaceFrom eqc (pat rep : JSString) (k : nat) (s : JSString) :
  every q rep -> every q s -> every q (replaceFrom eqc pat rep k s).
Proof.
  intros Hrep Hs. revert k; induction Hs as [|c s Hc Hs IH]; intros k;
    [constructor|].
  cbn [replaceFrom]. destruct k; [|apply IH].
  destruct (startsWith eqc pat (c :: s)).
  - apply Forall_app. split; [exact Hrep|apply IH].
  - constructor; [exact Hc|apply IH].
Qed.

Lemma every_replaceAll (pat rep s : JSString) :
  every q rep -> every q s -> every q (replaceAll pat rep s).
Proof. apply every_replaceFrom. Qed.



End Alphabet.

Section Canonical.



End Canonical.




Section NormalizedAlphabet.













End NormalizedAlphabet.

(** ** The case of the letters *)

Section KnownCase.

Variable q : CodeUnit -> bool.

Lemma every_collapse (b : bool) (s : JSString) :
  q 32%N = true -> every q s -> every q (collapseFrom b s).
Proof.
  intros H32 Hs. revert b. induction Hs as [|c s Hc _ IH]; intros b; [constructor|].
  cbn [collapseFrom]. destruct (isWhiteSpace c).
  - destruct b; [apply IH|]. constructor; [exact H32|apply IH].
  - constructor; [exact Hc|apply IH].
Qed.

Lemma every_applyStep (st : Step) (s : JSString) :
  every q (replacement st) -> every q s -> every q (applyStep st s).
Proof.
  destruct st as [p rep|eqc pat rep]; cbn [replacement applyStep]; intros Hr Hs.
  - now apply every_replaceClass.
  - now apply every_replaceFrom.
Qed.

Lemma every_run (steps : list Step) (s : JSString) :
  Forall (fun st => every q (replacement st)) steps ->
  every q s -> every q (run steps s).
Proof.
  intros H. revert s. induction H as [|st steps Hst _ IH]; intros s Hs; [exact Hs|].
  apply IH. now apply every_applyStep.
Qed.

End KnownCase.

Lemma normalizeText_run (s : JSString) :
  normalizeText s = toLowerCase (run textSteps (collapseSpaces (trim s))).
Proof. reflexivity. Qed.

Lemma normalizeCode_run (s : JSString) :
  normalizeCode s = toLowerCase (run codeSteps (collapseSpaces (trim s))).
Proof. reflexivity. Qed.

(** The normalizers take the lower case of texts of known case only,
    when they are given one: the code units that the steps before bring
    in are of known case. *)
Lemma lowered_text_known (s : JSString) :
  knownCase s ->
  knownCase (run textSteps (collapseSpaces (trim s)))
  /\ knownCase (run codeSteps (collapseSpaces (trim s))).
Proof.
  intros H.
  assert (H1 : knownCase (collapseSpaces (trim s)))
    by (apply every_collapse; [reflexivity|apply Forall_trim, H]).
  split; (apply every_run; [repeat constructor|exact H1]).
Qed.

(** On a code unit of known case the table gives a code unit of known
    case, and nothing new the second time. *)
Lemma lowerUnit_known (c : CodeUnit) :
  caseKnown c = true ->
  every caseKnown (lowerUnit c) /\ toLowerCase (lowerUnit c) = lowerUnit c.
Proof.
  intros H. unfold toLowerCase.
  destruct (lowerUnit_cases c) as [E|[(d & E & Hd)|E]].
  - rewrite E. split; [now repeat constructor|].
    cbn [flat_map]. rewrite E. reflexivity.
  - rewrite E. split.
    + repeat constructor. revert Hd. unfold caseKnown, otherCapitals. char_solve.
    + cbn [flat_map]. destruct (lowerLetter_settled d Hd) as [(_ & _ & _ & _ & ->) _].
      reflexivity.
  - rewrite E. split; [repeat constructor|reflexivity].
Qed.

(** The normal forms of a text of known case are of known case: so is
    what the second of two passes takes the lower case of. *)
Lemma normalized_known (s : JSString) :
  knownCase s -> knownCase (normalizeText s) /\ knownCase (normalizeCode s).
Proof.
  intros H. destruct (lowered_text_known s H) as [Ht Hc].
  rewrite normalizeText_run, normalizeCode_run.
  split; apply Forall_flat_map;
    (eapply Forall_impl; [|eassumption]); intros c Hk; apply lowerUnit_known, Hk.
Qed.

(** White space is of known case. *)
Lemma allSpace_known (ws : JSString) : allSpace ws -> knownCase ws.
Proof.
  intros H. eapply Forall_impl; [|exact H]. cbv beta. intros c.
  unfold caseKnown, otherCapitals. char_solve.
Qed.



(** ** Presence and the candidate *)

Section Containment.

Lemma includes_trans (a b c : JSString) :
  includes a b = true -> includes b c = true -> includes a c = true.
Proof.
  rewrite !includes_spec.
  intros (p1 & q1 & ->) (p2 & q2 & ->).
  exists (p1 ++ p2), (q2 ++ q1). now rewrite <- !app_assoc.
Qed.


Lemma includes_firstn (k : nat) (s : JSString) : includes s (firstn k s) = true.
Proof.
  apply includes_spec. exists [], (skipn k s). cbn [app].
  symmetry. apply firstn_skipn.
Qed.

Lemma startsWith_refl_app (w s : JSString) :
  startsWith N.eqb w (w ++ s) = true.
Proof. apply startsWith_app. Qed.

(** The first piece of a split is a prefix of the text. *)
Lemma split_head_prefix (sep : CodeUnit) (s : JSString) :
  match split sep s with
  | [] => False
  | w :: _ => startsWith N.eqb w s = true
  end.
Proof.
  induction s as [|c s IH]; [reflexivity|].
  cbn [split]. destruct (N.eqb c sep); [reflexivity|].
  destruct (split sep s) as [|w ws]; [contradiction|].
  cbn [startsWith]. now rewrite N.eqb_refl, IH.
Qed.

(** Every piece of a split is a substring of the text. *)
Lemma split_includes (sep : CodeUnit) (s w : JSString) :
  In w (split sep s) -> includes s w = true.
Proof.
  revert w; induction s as [|c s IH]; intros w H.
  - cbn in H. destruct H as [<-|[]]. reflexivity.
  - cbn [split] in H. destruct (N.eqb c sep).
    + destruct H as [<-|H]; [apply includes_nil|].
      cbn [includes]. rewrite (IH w H). apply orb_true_r.
    + pose proof (split_head_prefix sep s) as Hp.
      destruct (split sep s) as [|w0 ws]; [contradiction|].
      destruct H as [<-|H].
      * apply includes_prefix. cbn [startsWith]. now rewrite N.eqb_refl, Hp.
      * cbn [includes]. rewrite (IH w (or_intror H)). apply orb_true_r.
Qed.

Lemma filter_length_mono (A : Type) (f g : A -> bool) (l : list A) :
  (forall x, f x = true -> g x = true) ->
  length (filter f l) <= length (filter g l).
Proof.
  intros H. induction l as [|x l IH]; [apply le_n|].
  cbn [filter]. destruct (f x) eqn:E.
  - rewrite (H x E). cbn [length]. lia.
  - destruct (g x); cbn [length]; lia.
Qed.

Lemma filter_all (A : Type) (f : A -> bool) (l : list A) :
  (forall x, In x l -> f x = true) -> filter f l = l.
Proof.
  intros H. induction l as [|x l IH]; [reflexivity|].
  cbn [filter]. rewrite (H x (or_introl eq_refl)).
  f_equal. apply IH. intros y Hy. apply H. now right.
Qed.

Lemma wordRate_reached (nmd normalized : JSString) :
  jsGe (wordMatchRate nmd normalized) (6 # 10) = true <->
  0 < length (qualifyingWords normalized)
  /\ 6 * length (qualifyingWords normalized)
     <= 10 * length (matchingWords nmd (qualifyingWords normalized)).
Proof.
  rewrite wordMatchRate_ge.
  apply (jsGe_jsDiv 6 10). apply filter_length_le.
Qed.

End Containment.

Section Growth.

Variables nmd nmd' : JSString.
Hypothesis Hin : includes nmd' nmd = true.

Lemma includes_grows (x : JSString) :
  includes nmd x = true -> includes nmd' x = true.
Proof. apply includes_trans, Hin. Qed.

Lemma wordRate_grows (n : JSString) :
  jsGe (wordMatchRate nmd n) (6 # 10) = true ->
  jsGe (wordMatchRate nmd' n) (6 # 10) = true.
Proof.
  rewrite !wordRate_reached. intros [H0 H]. split; [exact H0|].
  pose proof (filter_length_mono _ (fun w => includes nmd w)
                (fun w => includes nmd' w) (qualifyingWords n) includes_grows).
  unfold matchingWords in *. lia.
Qed.

Lemma substringMatch_grows (m k : nat) (n : JSString) :
  substringMatch nmd m k n = true -> substringMatch nmd' m k n = true.
Proof.
  unfold substringMatch. rewrite !andb_true_iff.
  intros [H1 H2]. split; [exact H1|now apply includes_grows].
Qed.

Lemma paragraphPresent_grows (p : JSString) :
  paragraphPresent nmd p = true -> paragraphPresent nmd' p = true.
Proof.
  unfold paragraphPresent. rewrite !orb_true_iff.
  intros [H|H]; [left; now apply wordRate_grows|right; now apply substringMatch_grows].
Qed.

Lemma listItemPresent_grows (i : JSString) :
  listItemPresent nmd i = true -> listItemPresent nmd' i = true.
Proof.
  unfold listItemPresent. rewrite !orb_true_iff.
  intros [H|H]; [left; now apply wordRate_grows|right; now apply substringMatch_grows].
Qed.

Lemma codeBlockPresent_grows (c : JSString) :
  codeBlockPresent nmd c = true -> codeBlockPresent nmd' c = true.
Proof.
  unfold codeBlockPresent. rewrite !orb_true_iff, !lineMatchRate_ge.
  intros [H|H]; [left|right; now apply includes_grows].
  pose proof (filter_length_mono _
                (fun line => includes nmd (normalizeCode line))
                (fun line => includes nmd' (normalizeCode line))
                (significantLines c) (fun x => includes_grows _)).
  unfold matchingLines in *. lia.
Qed.

End Growth.

(** X5. Presence is monotone in the candidate: what is present in a
    normalized candidate is present in every text that contains it. *)
Theorem presence_monotone (nmd nmd' : JSString) :
  includes nmd' nmd = true ->
  (forall t, titlePresent nmd t = true -> titlePresent nmd' t = true)
  /\ (forall h, headingPresent nmd h = true -> headingPresent nmd' h = true)
  /\ (forall p, paragraphPresent nmd p = true -> paragraphPresent nmd' p = true)
  /\ (forall i, listItemPresent nmd i = true -> listItemPresent nmd' i = true)
  /\ (forall c, codeBlockPresent nmd c = true -> codeBlockPresent nmd' c = true).
Proof.
  intros Hin. split; [|split; [|split; [|split]]].
  - intros t. unfold titlePresent. now apply includes_grows.
  - intros h. unfold headingPresent. now apply includes_grows.
  - intros p. now apply paragraphPresent_grows.
  - intros i. now apply listItemPresent_grows.
  - intros c. now apply codeBlockPresent_grows.
Qed.

Lemma presence_monotone_witness :
  includes (lit "the deep theory of links") (lit "deep theory") = true
  /\ (paragraphPresent (lit "deep theory") (lit "Deep Theory") = true ->
      paragraphPresent (lit "the deep theory of links") (lit "Deep Theory") = true).
Proof.
  assert (H : includes (lit "the deep theory of links") (lit "deep theory") = true)
    by reflexivity.
  split; [exact H|].
  exact (proj1 (proj2 (proj2 (presence_monotone (lit "deep theory")
                                (lit "the deep theory of links") H)))
           (lit "Deep Theory")).
Defined.


Section Contained.

Variables nmd n : JSString.
Hypothesis Hin : includes nmd n = true.

Lemma contained_words : matchingWords nmd (qualifyingWords n) = qualifyingWords n.
Proof.
  apply filter_all. intros w Hw. apply filter_In in Hw as [Hw _].
  apply (includes_trans nmd n w Hin), (split_includes 32 n w Hw).
Qed.

Lemma contained_rate :
  jsGe (wordMatchRate nmd n) (6 # 10) = true <-> qualifyingWords n <> [].
Proof.
  rewrite wordRate_reached, contained_words.
  destruct (qualifyingWords n); cbn [length]; split.
  - intros [H _]. lia.
  - congruence.
  - discriminate.
  - intros _. lia.
Qed.

Lemma contained_start (m k : nat) :
  substringMatch nmd m k n = true <-> m < length n.
Proof.
  unfold substringMatch. rewrite andb_true_iff, Nat.ltb_lt.
  split; [now intros [H _]|]. intros H. split; [exact H|].
  apply (includes_trans nmd n _ Hin), includes_firstn.
Qed.

End Contained.

(** X6. An item whose normalized text stands in the candidate as it is: it
    is present if it has a word of more than 2 code units or is long
    enough for the fallback, and only then. *)
Theorem contained_item_present (nmd item : JSString) :
  includes nmd (normalizeText item) = true ->
  (paragraphPresent nmd item = true <->
   qualifyingWords (normalizeText item) <> [] \/ 20 < length (normalizeText item))
  /\ (listItemPresent nmd item = true <->
      qualifyingWords (normalizeText item) <> [] \/ 15 < length (normalizeText item)).
Proof.
  intros Hin. unfold paragraphPresent, listItemPresent.
  rewrite !orb_true_iff, (contained_rate _ _ Hin), !(contained_start _ _ Hin).
  split; reflexivity.
Qed.

Lemma contained_item_present_witness :
  paragraphPresent (lit "the deep theory of links") (lit "Deep Theory") = true.
Proof.
  assert (H : includes (lit "the deep theory of links")
                (normalizeText (lit "Deep Theory")) = true) by reflexivity.
  apply (proj1 (contained_item_present (lit "the deep theory of links")
                  (lit "Deep Theory") H)).
  left. discriminate.
Defined.


(** ** Texts joined by white space *)

Section AcrossSpace.


















End AcrossSpace.







(** ** The counts of a report *)

Section Counts.

Lemma filter_failures (A : Type) (ok : A -> bool) (xs : list A) :
  length (filter ok xs) + length (failures ok xs) = length xs.
Proof.
  unfold failures. induction xs as [|x xs IH]; [reflexivity|].
  cbn [filter]. destruct (ok x); cbn [negb length]; lia.
Qed.

Lemma contentChecks_counts (w : WebContent) (md : JSString) :
  total (contentChecks w md)
  = passed (contentChecks w md) + recorded (miss (contentChecks w md))
  /\ Missing.images (miss (contentChecks w md)) = 0
  /\ Missing.formulas (miss (contentChecks w md)) = [].
Proof.
  pose proof (contentChecks_closed w md) as E. cbv zeta in E. rewrite E.
  unfold recorded.
  cbn [total passed miss Missing.title Missing.headings Missing.paragraphs
       Missing.codeBlocks Missing.formulas Missing.listItems Missing.images].
  split; [|split; reflexivity].
  rewrite !length_map.
  pose proof (filter_failures _ (headingPresent (normalizeText md)) (headings w)).
  pose proof (filter_failures _ (paragraphPresent (normalizeText md))
                (paragraphsToCheck (paragraphs w))).
  pose proof (filter_failures _ (codeBlockPresent (normalizeCode md)) (codeBlocks w)).
  pose proof (filter_failures _ (listItemPresent (normalizeText md))
                (listItemsToCheck (listItems w))).
  assert (titleChecks w
          = titlePasses (normalizeText md) w
            + (if titleMissing (normalizeText md) w then 1 else 0)).
  { unfold titleChecks, titlePasses, titleMissing.
    destruct (title w); [reflexivity|]. now destruct (titlePresent _ _). }
  cbn [length Nat.ltb Nat.leb]. lia.
Qed.

Lemma checkImages_counts (article : Article) (md : JSString) (st : Checks) :
  total st = passed st + recorded (miss st) ->
  Missing.images (miss st) = 0 ->
  total (checkImages article md st)
  = passed (checkImages article md st) + recorded (miss (checkImages article md st))
    + unrecordedFailure article md.
Proof.
  intros Ht Hi. unfold checkImages, unrecordedFailure, pass, fail.
  destruct (hasLocalImages article); cbn [andb negb].
  - destruct (0 <? declaredFigures article); [|lia].
    destruct (declaredFigures article <=? _) eqn:E; cbn [total passed miss]; [lia|].
    apply Nat.leb_gt in E.
    unfold recorded in *. cbn [setImages Missing.title Missing.headings
      Missing.paragraphs Missing.codeBlocks Missing.formulas Missing.listItems
      Missing.images]. rewrite Hi in Ht.
    replace (0 <? declaredFigures article - _) with true
      by (symmetry; apply Nat.ltb_lt; lia).
    cbn [Nat.ltb Nat.leb] in Ht. lia.
  - destruct (Regex.hasImageMatch md); cbn [total passed miss negb]; lia.
Qed.

Lemma recorded_zero (m : Missing.t) : recorded m = 0 <-> nothingMissing m.
Proof.
  unfold recorded, nothingMissing.
  destruct (Missing.title m), (Missing.headings m), (Missing.paragraphs m),
    (Missing.codeBlocks m), (Missing.formulas m), (Missing.listItems m),
    (Missing.images m); cbn; split; intros H; try lia;
    try (decompose [and] H; discriminate); repeat split.
Qed.

End Counts.

Lemma failures_accounted_counts (article : Article) (w : WebContent) (md : JSString) :
  let r := verifyMarkdownContent article w md in
  totalChecks r
  = passedChecks r + recorded (missing r) + unrecordedFailure article md
  /\ (recorded (missing r) = 0 -> nothingMissing (missing r)).
Proof.
  cbv zeta. rewrite verifyMarkdownContent_stages.
  destruct (contentChecks_counts w md) as (Ht & Hi & _).
  split; [apply (checkImages_counts article md _ Ht Hi)|].
  apply recorded_zero.
Qed.

(** X9. Every check is counted once as passed or as failed, and every failed
    check is recorded in [missing], except the failed check of external
    image references. Formulas are never recorded. For an article with
    local images the report is free of missing content exactly when all
    checks passed. *)
Theorem failures_accounted (article : Article) (w : WebContent) (md : JSString) :
  let r := verifyMarkdownContent article w md in
  totalChecks r
  = passedChecks r + recorded (missing r) + unrecordedFailure article md
  /\ Missing.formulas (missing r) = []
  /\ (hasMissingContent r = false <-> recorded (missing r) = 0)
  /\ (hasLocalImages article = true ->
      (hasMissingContent r = false <-> passedChecks r = totalChecks r)).
Proof.
  cbv zeta. rewrite verifyMarkdownContent_stages.
  destruct (contentChecks_counts w md) as (Ht & Hi & Hf).
  pose proof (checkImages_counts article md _ Ht Hi) as Hc.
  destruct (checkImages_lists article md (contentChecks w md))
    as (_ & _ & _ & _ & Hf' & _).
  cbn [report totalChecks passedChecks missing].
  split; [exact Hc|]. split; [congruence|].
  assert (Hm : hasMissingContent (report (checkImages article md (contentChecks w md)))
               = false
               <-> recorded (miss (checkImages article md (contentChecks w md))) = 0).
  { rewrite hasMissingContent_false. symmetry. apply recorded_zero. }
  split; [exact Hm|].
  intros Hl. rewrite Hm. unfold unrecordedFailure in Hc. rewrite Hl in Hc.
  cbn [negb andb] in Hc. lia.
Qed.

Lemma failures_accounted_witness :
  passedChecks (verifyMarkdownContent (localArticle 13) oneHeading (lit "## Intro"))
  <> totalChecks (verifyMarkdownContent (localArticle 13) oneHeading (lit "## Intro"))
  /\ hasMissingContent
       (verifyMarkdownContent (localArticle 13) oneHeading (lit "## Intro")) = true.
Proof.
  assert (N : passedChecks
                (verifyMarkdownContent (localArticle 13) oneHeading (lit "## Intro"))
              <> totalChecks
                   (verifyMarkdownContent (localArticle 13) oneHeading (lit "## Intro")))
    by (vm_compute; discriminate).
  split; [exact N|].
  apply not_false_is_true. intros H. apply N.
  exact (proj1 (proj2 (proj2 (proj2 (failures_accounted (localArticle 13) oneHeading
                                       (lit "## Intro"))))
                  eq_refl) H).
Defined.


Lemma success_counts (article : Article) (w : WebContent) (md : JSString) :
  let r := verifyMarkdownContent article w md in
  success r = true <->
  nothingMissing (missing r) \/ 17 * totalChecks r <= 20 * passedChecks r.
Proof.
  cbv zeta.
  destruct (failures_accounted_counts article w md) as (Hc & Hz).
  rewrite verifyMarkdownContent_stages in *.
  set (st := checkImages article md (contentChecks w md)) in *.
  cbn [report totalChecks passedChecks missing] in Hc, Hz.
  assert (Hle : passed st <= total st) by lia.
  assert (Hrate : jsGe (if 0 <? total st then jsDiv (passed st) (total st) else Num 0)
                    (85 # 100) = true
                  <-> 0 < total st /\ 17 * total st <= 20 * passed st).
  { destruct (total st) as [|t] eqn:Et.
    - cbn. split; [discriminate|lia].
    - change (0 <? S t) with true. cbv iota.
      rewrite (jsGe_jsDiv 85 100 Hle).
      change (Pos.to_nat 85) with 85. change (Pos.to_nat 100) with 100. lia. }
  cbn [report success missing hasMissingContent passRate totalChecks
       passedChecks].
  change (Missing.title (miss st) || (0 <? Missing.images (miss st))
          || anyRecorded (miss st))%bool
    with (hasMissingContent (report st)).
  rewrite orb_true_iff, negb_true_iff, hasMissingContent_false, Hrate.
  split; [intros [H|[_ H]]; auto|].
  intros [H|H]; [now left|].
  destruct (Nat.eq_dec (total st) 0) as [E|E]; [left; apply Hz; lia|right; lia].
Qed.

(** X10. The verdict in whole numbers: a run succeeds exactly when nothing is
    missing or at least 17 of every 20 checks passed. The pass rate is a
    number between 0 and 1. A run of fewer than 7 checks that records
    something missing fails: one failure in six is too much. *)
Theorem verdict_in_counts (article : Article) (w : WebContent) (md : JSString) :
  let r := verifyMarkdownContent article w md in
  (success r = true <->
   nothingMissing (missing r) \/ 17 * totalChecks r <= 20 * passedChecks r)
  /\ (exists q, passRate r = Num q /\ 0 <= q /\ q <= 1)%Q
  /\ (hasMissingContent r = true -> totalChecks r < 7 -> success r = false).
Proof.
  cbv zeta. split; [apply success_counts|].
  destruct (failures_accounted_counts article w md) as (Hc & Hz).
  rewrite verifyMarkdownContent_stages in *.
  set (st := checkImages article md (contentChecks w md)) in *.
  cbn [report totalChecks passedChecks missing] in Hc, Hz.
  assert (Hle : passed st <= total st) by lia.
  assert (Hrate : jsGe (if 0 <? total st then jsDiv (passed st) (total st) else Num 0)
                    (85 # 100) = true
                  <-> 0 < total st /\ 17 * total st <= 20 * passed st).
  { destruct (total st) as [|t] eqn:Et.
    - cbn. split; [discriminate|lia].
    - change (0 <? S t) with true. cbv iota.
      rewrite (jsGe_jsDiv 85 100 Hle).
      change (Pos.to_nat 85) with 85. change (Pos.to_nat 100) with 100. lia. }
  split.
  - cbn [report passRate]. destruct (total st) as [|t] eqn:Et.
    + exists 0%Q. cbn. repeat split; [apply Qle_refl|discriminate].
    + change (0 <? S t) with true. cbv iota. cbn [jsDiv].
      eexists. split; [reflexivity|].
      unfold Qle, Qdiv, Qmult, Qinv, inject_Z. cbn [Qnum Qden Z.of_nat].
      split; nia.
  - intros Hm Ht.
    cbn [report success hasMissingContent passRate] in *.
    rewrite Hm. cbn [negb orb].
    apply not_true_is_false. rewrite Hrate. intros [_ H].
    assert (Hr : recorded (miss st) <> 0).
    { intros E. apply Hz in E.
      apply hasMissingContent_false in E.
      cbn [report hasMissingContent] in E. congruence. }
    cbn [report totalChecks] in Ht. lia.
Qed.

Lemma verdict_in_counts_witness :
  success (verifyMarkdownContent undeclaredArticle oneHeading (lit "nothing")) = false.
Proof.
  apply (proj2 (proj2 (verdict_in_counts undeclaredArticle oneHeading (lit "nothing")))).
  - reflexivity.
  - vm_compute. lia.
Defined.


(** ** What a report records, and what a run looks at *)

Section Sample.

Lemma contentChecks_sample (w w' : WebContent) (md : JSString) :
  title w' = title w -> headings w' = headings w ->
  codeBlocks w' = codeBlocks w ->
  paragraphsToCheck (paragraphs w') = paragraphsToCheck (paragraphs w) ->
  listItemsToCheck (listItems w') = listItemsToCheck (listItems w) ->
  contentChecks w' md = contentChecks w md.
Proof.
  intros Ht Hh Hc Hp Hl.
  pose proof (contentChecks_closed w md) as E. cbv zeta in E. rewrite E.
  pose proof (contentChecks_closed w' md) as E'. cbv zeta in E'. rewrite E'.
  unfold titleChecks, titlePasses, titleMissing.
  now rewrite Ht, Hh, Hc, Hp, Hl.
Qed.

End Sample.


(** X12. A run looks at the title, the headings and the code blocks of
    a page, at its first five and last five paragraphs and at its first
    ten list items, and at nothing else: not at the formulas, the links
    and the figures, not at the paragraphs in between, not at the list
    items after the tenth. Pages that agree in what is looked at get the
    same report. *)
Theorem unsampled_content_ignored (article : Article) (md : JSString)
    (w w' : WebContent) :
  title w' = title w -> headings w' = headings w ->
  codeBlocks w' = codeBlocks w ->
  firstn 5 (paragraphs w') = firstn 5 (paragraphs w) ->
  skipn (length (paragraphs w') - 5) (paragraphs w')
  = skipn (length (paragraphs w) - 5) (paragraphs w) ->
  firstn 10 (listItems w') = firstn 10 (listItems w) ->
  verifyMarkdownContent article w' md = verifyMarkdownContent article w md.
Proof.
  intros Ht Hh Hc Hf Hl Hi. rewrite !verifyMarkdownContent_stages. do 2 f_equal.
  apply contentChecks_sample; try assumption.
  unfold paragraphsToCheck. now rewrite Hf, Hl.
Qed.

Lemma unsampled_content_ignored_witness :
  verifyMarkdownContent undeclaredArticle
    (shortPage (lit "a^2 + b^2") 1) (lit "# Links")
  = verifyMarkdownContent undeclaredArticle
      (shortPage (lit "e = mc^2") 2) (lit "# Links")
  /\ verifyMarkdownContent undeclaredArticle
       (longPage (lit "a paragraph in the middle") (lit "the eleventh item"))
       (lit "# Links")
     = verifyMarkdownContent undeclaredArticle
         (longPage (lit "another one") (lit "another item"))
         (lit "# Links").
Proof.
  split.
  - apply (unsampled_content_ignored undeclaredArticle (lit "# Links")
             (shortPage (lit "e = mc^2") 2) (shortPage (lit "a^2 + b^2") 1));
      reflexivity.
  - apply (unsampled_content_ignored undeclaredArticle (lit "# Links")
             (longPage (lit "another one") (lit "another item"))
             (longPage (lit "a paragraph in the middle") (lit "the eleventh item")));
      reflexivity.
Defined.


(** ** References to external images *)

Section ImageReferences.

Import Regex.

Lemma literalExact_app (pat rest : JSString) :
  literalExact pat (pat ++ rest) = Some rest.
Proof.
  unfold literalExact. induction pat as [|p pat IH]; [reflexivity|].
  cbn [app literalBy]. now rewrite N.eqb_refl.
Qed.

Lemma literalExact_inv (pat s rest : JSString) :
  literalExact pat s = Some rest -> s = pat ++ rest.
Proof.
  unfold literalExact. revert s; induction pat as [|p pat IH]; intros s H.
  - cbn [literalBy] in H. now injection H as ->.
  - destruct s as [|c s]; [discriminate|]. cbn [literalBy] in H.
    destruct (N.eqb_spec p c) as [->|]; [|discriminate].
    cbn [app]. f_equal. now apply IH.
Qed.

Lemma closesOnLine_spec (s : JSString) :
  closesOnLine s = true <->
  exists url after, s = url ++ lit ")" ++ after /\ oneLine url.
Proof.
  split.
  - induction s as [|c s IH]; [discriminate|]. cbn [closesOnLine].
    destruct (N.eqb_spec c 41) as [->|Hc].
    + intros _. exists [], s. split; [reflexivity|constructor].
    + destruct (isLineTerminator c) eqn:Hl; [discriminate|].
      intros H. destruct (IH H) as (url & after & -> & Hu).
      exists (c :: url), after. split; [reflexivity|now constructor].
  - intros (url & after & -> & Hu).
    induction Hu as [|c url Hc _ IH]; [reflexivity|].
    cbn [app closesOnLine]. rewrite Hc, IH. now destruct (N.eqb c 41).
Qed.

Lemma linkTail_spec (s : JSString) :
  linkTail s = true <->
  exists scheme url after,
    s = lit "](" ++ scheme ++ lit "://" ++ url ++ lit ")" ++ after
    /\ (scheme = lit "http" \/ scheme = lit "https") /\ oneLine url.
Proof.
  unfold linkTail. split.
  - destruct (literalExact (lit "](http") s) as [s1|] eqn:E1; [|discriminate].
    apply literalExact_inv in E1. subst s.
    destruct s1 as [|c s1].
    + discriminate.
    + destruct (N.eqb_spec c 115) as [->|Hc].
      * destruct (literalExact (lit "://") s1) as [s3|] eqn:E3; [|discriminate].
        apply literalExact_inv in E3. subst s1.
        intros H. apply closesOnLine_spec in H as (url & after & -> & Hu).
        exists (lit "https"), url, after. repeat split; [now right|assumption].
      * destruct (literalExact (lit "://") (c :: s1)) as [s3|] eqn:E3; [|discriminate].
        apply literalExact_inv in E3. rewrite E3.
        intros H. apply closesOnLine_spec in H as (url & after & -> & Hu).
        exists (lit "http"), url, after. repeat split; [now left|assumption].
  - intros (scheme & url & after & -> & [->| ->] & Hu).
    + change (lit "](" ++ lit "http" ++ lit "://" ++ url ++ lit ")" ++ after)
        with (lit "](http" ++ lit "://" ++ url ++ lit ")" ++ after).
      rewrite literalExact_app.
      change (lit "://" ++ url ++ lit ")" ++ after)
        with (58%N :: (lit "//" ++ url ++ lit ")" ++ after)).
      cbn [N.eqb Pos.eqb].
      change (58%N :: (lit "//" ++ url ++ lit ")" ++ after))
        with (lit "://" ++ url ++ lit ")" ++ after).
      rewrite literalExact_app. apply closesOnLine_spec. now exists url, after.
    + change (lit "](" ++ lit "https" ++ lit "://" ++ url ++ lit ")" ++ after)
        with (lit "](http" ++ 115%N :: (lit "://" ++ url ++ lit ")" ++ after)).
      rewrite literalExact_app. cbn [N.eqb Pos.eqb].
      rewrite literalExact_app. apply closesOnLine_spec. now exists url, after.
Qed.

Lemma lazyLinkTail_spec (s : JSString) :
  lazyLinkTail s = true <->
  exists alt rest, s = alt ++ rest /\ oneLine alt /\ linkTail rest = true.
Proof.
  split.
  - induction s as [|c s IH]; cbn [lazyLinkTail].
    + rewrite orb_false_r. intros H. exists [], []. repeat split; [constructor|exact H].
    + destruct (linkTail (c :: s)) eqn:E.
      * intros _. exists [], (c :: s). repeat split; [constructor|exact E].
      * cbn [orb]. destruct (isLineTerminator c) eqn:Hl; [discriminate|].
        intros H. destruct (IH H) as (alt & rest & -> & Ha & Hr).
        exists (c :: alt), rest. repeat split; [now constructor|exact Hr].
  - intros (alt & rest & -> & Ha & Hr).
    induction Ha as [|c alt Hc _ IH]; cbn [app].
    + destruct rest; cbn [lazyLinkTail]; now rewrite Hr.
    + cbn [lazyLinkTail]. rewrite Hc, IH. apply orb_true_r.
Qed.

Lemma hasImageMatch_spec (s : JSString) :
  hasImageMatch s = true <-> exists before rest, s = before ++ rest /\ imageAt rest = true.
Proof.
  split.
  - induction s as [|c s IH]; cbn [hasImageMatch].
    + rewrite orb_false_r. intros H. now exists [], [].
    + destruct (imageAt (c :: s)) eqn:E.
      * intros _. now exists [], (c :: s).
      * cbn [orb]. intros H. destruct (IH H) as (before & rest & -> & Hr).
        now exists (c :: before), rest.
  - intros (before & rest & -> & Hr).
    induction before as [|c before IH]; cbn [app].
    + destruct rest; cbn [hasImageMatch]; now rewrite Hr.
    + cbn [hasImageMatch]. rewrite IH. apply orb_true_r.
Qed.

Lemma hasImageMatch_shape (md : JSString) :
  hasImageMatch md = true <-> imageReference md.
Proof.
  unfold imageReference. rewrite hasImageMatch_spec. split.
  - intros (before & rest & -> & H). unfold imageAt in H.
    destruct (literalExact (lit "![") rest) as [s1|] eqn:E1; [|discriminate].
    apply literalExact_inv in E1. subst rest.
    apply lazyLinkTail_spec in H as (alt & rest & -> & Ha & H).
    apply linkTail_spec in H as (scheme & url & after & -> & Hs & Hu).
    now exists before, alt, scheme, url, after.
  - intros (before & alt & scheme & url & after & -> & Hs & Ha & Hu).
    exists before. eexists. split; [reflexivity|].
    unfold imageAt. rewrite literalExact_app.
    apply lazyLinkTail_spec. exists alt. eexists. repeat split; [assumption|].
    apply linkTail_spec. now exists scheme, url, after.
Qed.

End ImageReferences.

(** X13. For an article without local images the image check is one check,
    never recorded in [missing], and it passes exactly when the markdown
    text holds a reference to an image with an address that starts with
    [http://] or [https://], the alternative text and the address up to
    a closing parenthesis on one line. *)
Theorem external_image_reference
    (article : Article) (md : JSString) (st : Checks) :
  hasLocalImages article = false ->
  total (checkImages article md st) = total st + 1
  /\ miss (checkImages article md st) = miss st
  /\ (passed (checkImages article md st) = passed st + 1 <-> imageReference md)
  /\ (passed (checkImages article md st) = passed st <-> ~ imageReference md).
Proof.
  intros Hl. unfold checkImages. rewrite Hl. cbn [andb negb].
  rewrite <- hasImageMatch_shape.
  destruct (Regex.hasImageMatch md); cbn [pass fail total passed miss].
  - split; [lia|]. split; [reflexivity|]. split.
    + split; [reflexivity|intros _; lia].
    + split; [intros H; exfalso; lia|intros H; now contradict H].
  - split; [lia|]. split; [reflexivity|]. split.
    + split; [intros H; exfalso; lia|discriminate].
    + split; [intros _; discriminate|reflexivity].
Qed.

Lemma external_image_reference_witness :
  passed (checkImages externalArticle
            (lit "![scheme](https://habrastorage.org/scheme.png)") start) = 1.
Proof.
  apply (proj1 (proj2 (proj2 (external_image_reference externalArticle
                                (lit "![scheme](https://habrastorage.org/scheme.png)")
                                start eq_refl)))).
  exists [], (lit "scheme"), (lit "https"), (lit "habrastorage.org/scheme.png"), [].
  split; [reflexivity|]. split; [now right|]. split; repeat constructor.
Defined.


(** ** References to figures *)

Section FigureReferences.

Import Regex.

Lemma bind_Some (o : option JSString) (k : JSString -> option JSString)
    (r : JSString) :
  bind o k = Some r <-> exists x, o = Some x /\ k x = Some r.
Proof.
  destruct o as [x|]; cbn [bind]; split.
  - intros H. now exists x.
  - now intros (y & [= <-] & H).
  - discriminate.
  - now intros (y & [=] & _).
Qed.

Lemma orElse_Some (a b : option JSString) (r : JSString) :
  orElse a b = Some r <-> a = Some r \/ (a = None /\ b = Some r).
Proof.
  destruct a as [x|]; cbn [orElse]; split; try tauto.
  - intros [H|[[=] _]]; exact H.
  - intros [[=]|[_ H]]; exact H.
Qed.

Lemma sameIgnoringCase_cons (p : CodeUnit) (pat m : JSString) :
  sameIgnoringCase (p :: pat) m ->
  exists c m', m = c :: m' /\ eqIgnoreCase p c = true /\ sameIgnoringCase pat m'.
Proof. intros H. inversion H as [|? c ? m' Hc Hm]; subst. now exists c, m'. Qed.

Lemma sameIgnoringCase_app (pat1 pat2 m : JSString) :
  sameIgnoringCase (pat1 ++ pat2) m ->
  exists m1 m2, m = m1 ++ m2 /\ sameIgnoringCase pat1 m1 /\ sameIgnoringCase pat2 m2.
Proof.
  intros H. apply Forall2_app_inv_l in H as (m1 & m2 & H1 & H2 & ->).
  now exists m1, m2.
Qed.

Lemma literal_spec (pat s rest : JSString) :
  literal pat s = Some rest <-> exists m, s = m ++ rest /\ sameIgnoringCase pat m.
Proof.
  unfold literal. revert s; induction pat as [|p pat IH]; intros s.
  - cbn [literalBy]. split.
    + intros [= ->]. exists []. split; [reflexivity|constructor].
    + intros (m & -> & H). inversion H. reflexivity.
  - destruct s as [|c s]; cbn [literalBy].
    + split; [discriminate|]. intros (m & E & H).
      apply sameIgnoringCase_cons in H as (c & m' & -> & _). discriminate.
    + split.
      * destruct (eqIgnoreCase p c) eqn:Hc; [|discriminate].
        intros H. apply IH in H as (m & -> & Hm).
        exists (c :: m). split; [reflexivity|now constructor].
      * intros (m & E & H).
        apply sameIgnoringCase_cons in H as (c' & m' & -> & Hc & Hm).
        injection E as <- ->. rewrite Hc. apply IH. now exists m'.
Qed.

Lemma literal_mismatch (p : CodeUnit) (pat : JSString) (c : CodeUnit) (s : JSString) :
  eqIgnoreCase p c = false -> literal (p :: pat) (c :: s) = None.
Proof. intros H. unfold literal. cbn [literalBy]. now rewrite H. Qed.

Lemma plus_sound (p : CodeUnit -> bool) (s rest : JSString) :
  plus p s = Some rest ->
  exists d, s = d ++ rest /\ d <> [] /\ Forall (fun c => p c = true) d.
Proof.
  destruct s as [|c s]; [discriminate|]. cbn [plus].
  destruct (p c) eqn:Hc; [|discriminate]. intros [= <-].
  destruct (dropWhile_prefix_all p s) as (pre & E & Hpre).
  exists (c :: pre). split; [cbn [app]; now rewrite <- E|].
  split; [discriminate|now constructor].
Qed.

Lemma plus_complete (p : CodeUnit -> bool) (d rest : JSString) :
  Forall (fun c => p c = true) d -> d <> [] -> stops p rest ->
  plus p (d ++ rest) = Some rest.
Proof.
  intros Hd Hn Hr. destruct Hd as [|c d Hc Hd]; [contradiction|].
  cbn [app plus]. rewrite Hc. f_equal.
  rewrite dropWhile_app_all by exact Hd. now apply dropWhile_id.
Qed.

(** Under the [i] flag white space, digits and the dot are matched by
    themselves only. *)
Lemma folded_class (p c : CodeUnit) :
  eqIgnoreCase p c = true ->
  (isWhiteSpace c || isDigit c || N.eqb c 46)%bool = true ->
  c = canonicalize p.
Proof.
  unfold eqIgnoreCase. intros H Hc. apply N.eqb_eq in H. rewrite H. clear H p.
  revert Hc. unfold isDigit. char_solve.
Qed.

Lemma folded_other (p p' c : CodeUnit) :
  eqIgnoreCase p c = true -> eqIgnoreCase p' c = eqIgnoreCase p' p.
Proof. unfold eqIgnoreCase. intros H. apply N.eqb_eq in H. now rewrite H. Qed.

Lemma stops_after (q : CodeUnit -> bool) (p : CodeUnit) (pat m rest : JSString) :
  sameIgnoringCase (p :: pat) m ->
  (forall c, eqIgnoreCase p c = true -> q c = false) ->
  stops q (m ++ rest).
Proof.
  intros H Hq. apply sameIgnoringCase_cons in H as (c & m' & -> & Hc & _).
  cbn [app stops]. now apply Hq.
Qed.

Lemma bracket_no_digit (c : CodeUnit) :
  eqIgnoreCase 93 c = true -> isDigit c = false.
Proof.
  intros H. destruct (isDigit c) eqn:E; [|reflexivity].
  rewrite (folded_class 93 c H) in E; [discriminate|].
  rewrite E. now rewrite orb_true_r.
Qed.

Lemma dot_only (c : CodeUnit) : eqIgnoreCase 46 c = true <-> c = 46%N.
Proof.
  split; [|now intros ->].
  unfold eqIgnoreCase. change (canonicalize 46) with 46%N.
  intros H. apply N.eqb_eq in H. revert H. char_solve.
Qed.

Lemma dot_no_digit (c : CodeUnit) : eqIgnoreCase 46 c = true -> isDigit c = false.
Proof. intros H. apply dot_only in H. now subst. Qed.

Lemma digit_no_space (c : CodeUnit) : isDigit c = true -> isWhiteSpace c = false.
Proof. unfold isDigit. char_solve. Qed.

Lemma digit_no_dot (c : CodeUnit) : isDigit c = true -> N.eqb c 46 = false.
Proof. unfold isDigit. char_solve. Qed.

Lemma space_no_dot (c : CodeUnit) : isWhiteSpace c = true -> N.eqb c 46 = false.
Proof. char_solve. Qed.

(** The Cyrillic letter after [cyrillicRis] in [cyrillicRisunok], in
    either case, is no dot, no white space and no digit. *)
Lemma letter_u (c : CodeUnit) :
  eqIgnoreCase 0x443 c = true ->
  N.eqb c 46 = false /\ isWhiteSpace c = false /\ isDigit c = false.
Proof.
  intros H.
  assert (Hn : (isWhiteSpace c || isDigit c || N.eqb c 46)%bool = false).
  { destruct (isWhiteSpace c || isDigit c || N.eqb c 46)%bool eqn:E; [|reflexivity].
    pose proof (folded_class 0x443 c H E) as ->. discriminate E. }
  apply orb_false_elim in Hn as [Hn H3]. apply orb_false_elim in Hn as [H1 H2].
  now repeat split.
Qed.

Lemma numberAndPath_spec (x rest : JSString) :
  figureTail x = Some rest <-> exists t, x = t ++ rest /\ numberAndPath t.
Proof.
  unfold figureTail. split.
  - intros H.
    apply bind_Some in H as (s1 & H1 & H).
    apply bind_Some in H as (s2 & H2 & H).
    apply bind_Some in H as (s3 & H3 & H).
    apply bind_Some in H as (s4 & H4 & H).
    apply bind_Some in H as (s5 & H5 & H6).
    apply plus_sound in H1 as (n1 & E1 & Hn1 & Hd1).
    apply literal_spec in H2 as (b & -> & Hb).
    apply plus_sound in H3 as (n2 & -> & Hn2 & Hd2).
    apply literal_spec in H4 as (c1 & -> & Hc1).
    apply literal_spec in H6 as (c2 & -> & Hc2).
    destruct (dropWhile_prefix_all isWhiteSpace x) as (ws & Ex & Hws).
    rewrite E1 in Ex.
    assert (Hext : exists ext ce, In ext [lit "png"; lit "jpg"]
                     /\ s4 = ce ++ c2 ++ rest /\ sameIgnoringCase ext ce).
    { apply orElse_Some in H5 as [H5|[_ H5]];
        apply literal_spec in H5 as (ce & -> & Hce).
      - exists (lit "png"), ce. cbn [In]. auto.
      - exists (lit "jpg"), ce. cbn [In]. auto. }
    destruct Hext as (ext & ce & Hin & -> & Hce).
    exists (ws ++ n1 ++ b ++ n2 ++ c1 ++ ce ++ c2). split.
    + rewrite Ex. now rewrite <- !app_assoc.
    + exists ws, n1, b, n2, (c1 ++ ce ++ c2), ext.
      repeat split; try assumption.
      apply Forall2_app; [exact Hc1|]. apply Forall2_app; assumption.
  - intros (t & -> & ws & n1 & b & n2 & c & ext & -> & Hin & Hws & Hd1 & Hn1
              & Hb & Hd2 & Hn2 & Hc).
    apply sameIgnoringCase_app in Hc as (c1 & c' & -> & Hc1 & Hc).
    apply sameIgnoringCase_app in Hc as (ce & c2 & -> & Hce & Hc2).
    rewrite <- !app_assoc.
    assert (E0 : dropWhile isWhiteSpace
                   (ws ++ n1 ++ b ++ n2 ++ c1 ++ ce ++ c2 ++ rest)
                 = n1 ++ b ++ n2 ++ c1 ++ ce ++ c2 ++ rest).
    { rewrite dropWhile_app_all by exact Hws. apply dropWhile_id.
      destruct Hd1 as [|d n1 Hd Hd1]; [contradiction|].
      cbn [app]. now apply digit_no_space. }
    rewrite E0.
    rewrite plus_complete; [|exact Hd1|exact Hn1|].
    2:{ eapply stops_after; [exact Hb|apply bracket_no_digit]. }
    cbn [bind].
    rewrite (proj2 (literal_spec (lit "](images/figure-")
                      (b ++ n2 ++ c1 ++ ce ++ c2 ++ rest)
                      (n2 ++ c1 ++ ce ++ c2 ++ rest)));
      [|now exists b].
    cbn [bind].
    rewrite plus_complete; [|exact Hd2|exact Hn2|].
    2:{ eapply stops_after; [exact Hc1|apply dot_no_digit]. }
    cbn [bind].
    rewrite (proj2 (literal_spec (lit ".") (c1 ++ ce ++ c2 ++ rest)
                      (ce ++ c2 ++ rest))); [|now exists c1].
    cbn [bind].
    assert (E5 : orElse (literal (lit "png") (ce ++ c2 ++ rest))
                   (literal (lit "jpg") (ce ++ c2 ++ rest))
                 = Some (c2 ++ rest)).
    { cbn [In] in Hin. destruct Hin as [<-|[<-|[]]].
      - rewrite (proj2 (literal_spec (lit "png") (ce ++ c2 ++ rest) (c2 ++ rest)));
          [reflexivity|now exists ce].
      - assert (Hj := Hce).
        apply sameIgnoringCase_cons in Hj as (j & ce' & -> & Hj & _).
        cbn [app].
        rewrite (literal_mismatch 112 (lit "ng") j);
          [|now rewrite (folded_other _ 112 _ Hj)].
        cbn [orElse]. change (j :: ce' ++ c2 ++ rest) with ((j :: ce') ++ c2 ++ rest).
        apply literal_spec. now exists (j :: ce'). }
    rewrite E5. cbn [bind].
    apply literal_spec. now exists c2.
Qed.

Lemma numberAndPath_head (t : JSString) :
  numberAndPath t -> exists c t', t = c :: t' /\ N.eqb c 46 = false.
Proof.
  intros (ws & n1 & b & n2 & c & ext & -> & _ & Hws & Hd1 & Hn1 & _).
  destruct Hws as [|w ws Hw Hws].
  - destruct Hd1 as [|d n1 Hd Hd1]; [contradiction|].
    exists d. eexists. split; [reflexivity|now apply digit_no_dot].
  - exists w. eexists. split; [reflexivity|now apply space_no_dot].
Qed.

Lemma figureAt_sound (s rest : JSString) :
  figureAt s = Some rest -> exists m, s = m ++ rest /\ figureReference m.
Proof.
  unfold figureAt. intros H.
  apply bind_Some in H as (s0 & H0 & H).
  apply literal_spec in H0 as (a0 & -> & Ha0).
  assert (Hshape : exists w word t, s0 = w ++ t ++ rest /\ In word figureWords
                     /\ sameIgnoringCase word w /\ numberAndPath t).
  { apply orElse_Some in H as [H|[_ H]].
    - apply bind_Some in H as (s1 & H1 & H).
      apply literal_spec in H1 as (w & -> & Hw).
      apply numberAndPath_spec in H as (t & -> & Ht).
      exists w, (lit "Figure"), t.
      split; [reflexivity|]. split; [now left|]. now split.
    - apply orElse_Some in H as [H|[_ H]].
      + apply bind_Some in H as (s1 & H1 & H).
        apply literal_spec in H1 as (w & -> & Hw).
        apply numberAndPath_spec in H as (t & E & Ht).
        destruct s1 as [|c s1]; cbn [optionalDot] in E.
        * exists w, cyrillicRis, t. rewrite <- E.
          split; [reflexivity|]. split; [right; now left|]. now split.
        * revert E. destruct (N.eqb_spec c 46) as [->|Hc]; intros E.
          -- subst s1. exists (w ++ lit "."), (cyrillicRis ++ lit "."), t.
             split; [now rewrite <- app_assoc|].
             split; [do 2 right; now left|].
             split; [|exact Ht].
             apply Forall2_app; [exact Hw|]. repeat constructor.
          -- rewrite E. exists w, cyrillicRis, t.
             split; [reflexivity|]. split; [right; now left|]. now split.
      + apply bind_Some in H as (s1 & H1 & H).
        apply literal_spec in H1 as (w & -> & Hw).
        apply numberAndPath_spec in H as (t & -> & Ht).
        exists w, cyrillicRisunok, t.
        split; [reflexivity|]. split; [do 3 right; now left|]. now split. }
  destruct Hshape as (w & word & t & -> & Hin & Hw & Ht).
  exists ((a0 ++ w) ++ t). split; [now rewrite <- !app_assoc|].
  exists (a0 ++ w), t, word. repeat split; try assumption.
  now apply Forall2_app.
Qed.

Lemma literal_app (pat m rest : JSString) :
  sameIgnoringCase pat m -> literal pat (m ++ rest) = Some rest.
Proof. intros H. apply literal_spec. now exists m. Qed.

Lemma not_Figure (pat w x : JSString) (y : JSString -> option JSString) :
  sameIgnoringCase (0x420%N :: pat) w ->
  bind (literal (lit "Figure") (w ++ x)) y = None.
Proof.
  intros H. apply sameIgnoringCase_cons in H as (r & w' & -> & Hr & _).
  cbn [app]. rewrite (literal_mismatch 70 (lit "igure") r);
    [reflexivity|now rewrite (folded_other _ 70 _ Hr)].
Qed.

Lemma figureAt_complete (m rest : JSString) :
  figureReference m -> figureAt (m ++ rest) = Some rest.
Proof.
  intros (a & t & word & -> & Hin & Ha & Ht).
  apply sameIgnoringCase_app in Ha as (a0 & w & -> & Ha0 & Hw).
  pose proof (proj2 (numberAndPath_spec (t ++ rest) rest)
                (ex_intro _ t (conj eq_refl Ht))) as Htail.
  unfold figureAt. rewrite <- !app_assoc.
  rewrite (literal_app _ _ _ Ha0). cbn [bind].
  cbn [figureWords In] in Hin. destruct Hin as [<-|[<-|[<-|[<-|[]]]]].
  - rewrite (literal_app _ _ _ Hw). cbn [bind]. now rewrite Htail.
  - rewrite (not_Figure _ _ _ _ Hw). cbn [orElse].
    rewrite (literal_app _ _ _ Hw). cbn [bind].
    destruct (numberAndPath_head _ Ht) as (c & t' & E & Hc).
    rewrite E in Htail |- *. cbn [app optionalDot] in Htail |- *.
    rewrite Hc. now rewrite Htail.
  - apply sameIgnoringCase_app in Hw as (w3 & d & -> & Hw3 & Hd).
    apply sameIgnoringCase_cons in Hd as (d0 & d' & -> & Hd0 & Hd').
    inversion Hd'; subst. apply dot_only in Hd0. subst d0.
    rewrite <- app_assoc.
    rewrite (not_Figure _ _ _ _ Hw3). cbn [orElse].
    rewrite (literal_app _ _ _ Hw3).
    cbn [bind app optionalDot N.eqb Pos.eqb]. now rewrite Htail.
  - assert (Hall := Hw).
    change cyrillicRisunok
      with (cyrillicRis ++ [0x443; 0x43D; 0x43E; 0x43A]%N) in Hw.
    apply sameIgnoringCase_app in Hw as (w3 & w4 & -> & Hw3 & Hw4).
    apply sameIgnoringCase_cons in Hw4 as (u & w4' & -> & Hu & _).
    destruct (letter_u _ Hu) as (Hu1 & Hu2 & Hu3).
    rewrite (not_Figure _ _ _ _ Hall). cbn [orElse].
    assert (E2 : bind (literal cyrillicRis ((w3 ++ u :: w4') ++ t ++ rest))
                   (fun s1 => figureTail (optionalDot s1)) = None).
    { rewrite <- app_assoc.
      rewrite (literal_app _ _ _ Hw3).
      cbn [bind app optionalDot]. rewrite Hu1.
      unfold figureTail. cbn [dropWhile]. rewrite Hu2. cbn [plus]. now rewrite Hu3. }
    rewrite E2. cbn [orElse].
    rewrite (literal_app _ _ _ Hall). cbn [bind]. exact Htail.
Qed.

Lemma figureReference_not_empty (m : JSString) : figureReference m -> m <> [].
Proof.
  intros (a & t & word & -> & _ & Ha & _).
  apply sameIgnoringCase_cons in Ha as (c & a' & -> & _). discriminate.
Qed.

Lemma figureMatchesFrom_references (s : JSString) (k : nat) :
  Forall figureReference (figureMatchesFrom k s).
Proof.
  revert k; induction s as [|c s IH]; intros k; [constructor|].
  cbn [figureMatchesFrom]. destruct k as [|k]; [|apply IH].
  destruct (figureAt (c :: s)) as [rest|] eqn:E; [|apply IH].
  constructor; [|apply IH].
  apply figureAt_sound in E as (m & E & Hm). rewrite E.
  rewrite length_app, Nat.add_sub.
  rewrite firstn_app, Nat.sub_diag, firstn_all. cbn [firstn].
  now rewrite app_nil_r.
Qed.

Lemma figureMatchesFrom_skip (x s : JSString) :
  figureMatchesFrom (length x) (x ++ s) = figureMatchesFrom 0 s.
Proof.
  induction x as [|c x IH]; [|exact IH].
  cbn [length app]. reflexivity.
Qed.

Lemma figureMatches_leading (m after : JSString) :
  figureReference m -> figureMatches (m ++ after) = m :: figureMatches after.
Proof.
  intros Hm. pose proof (figureAt_complete _ after Hm) as E.
  pose proof (figureReference_not_empty _ Hm) as Hn.
  unfold figureMatches. destruct m as [|c m]; [contradiction|].
  cbn [app figureMatchesFrom]. cbn [app] in E. rewrite E.
  change (c :: m ++ after) with ((c :: m) ++ after).
  rewrite length_app, Nat.add_sub.
  rewrite firstn_app, Nat.sub_diag, firstn_all. cbn [firstn].
  rewrite app_nil_r. f_equal.
  cbn [length]. rewrite Nat.sub_succ, Nat.sub_0_r.
  apply figureMatchesFrom_skip.
Qed.

Lemma figureMatches_none (s : JSString) :
  figureMatchesFrom 0 s = [] <->
  forall before after, s = before ++ after -> figureAt after = None.
Proof.
  induction s as [|c s IH].
  - split; [|reflexivity]. intros _ before after E.
    symmetry in E. apply app_eq_nil in E as [_ ->]. reflexivity.
  - cbn [figureMatchesFrom]. split.
    + destruct (figureAt (c :: s)) as [rest|] eqn:E; [discriminate|].
      intros H before after Eq. destruct before as [|b before].
      * cbn [app] in Eq. now subst.
      * injection Eq as _ Eq. exact (proj1 IH H before after Eq).
    + intros H. rewrite (H [] (c :: s) eq_refl).
      apply IH. intros before after E. apply (H (c :: before) after).
      now rewrite E.
Qed.

Lemma noBang_literal (pat m : JSString) :
  sameIgnoringCase pat m -> noBang pat -> noBang m.
Proof.
  induction 1 as [|p c pat m Hc _ IH]; intros H; [constructor|].
  inversion H as [|? ? Hp Hpat]; subst.
  constructor; [|now apply IH].
  now rewrite (folded_other _ 33 _ Hc).
Qed.

Lemma noBang_app (x y : JSString) : noBang x -> noBang y -> noBang (x ++ y).
Proof. intros Hx Hy. apply Forall_app. now split. Qed.

Lemma noBang_class (p : CodeUnit -> bool) (s : JSString) :
  (forall c, p c = true -> eqIgnoreCase 33 c = false) ->
  Forall (fun c => p c = true) s -> noBang s.
Proof. intros Hp H. induction H; constructor; auto. Qed.

Lemma space_no_bang (c : CodeUnit) : isWhiteSpace c = true -> eqIgnoreCase 33 c = false.
Proof.
  intros H. destruct (eqIgnoreCase 33 c) eqn:E; [|reflexivity].
  pose proof (folded_class 33 c E) as F. rewrite H in F.
  specialize (F eq_refl). subst c. discriminate H.
Qed.

Lemma digit_no_bang (c : CodeUnit) : isDigit c = true -> eqIgnoreCase 33 c = false.
Proof.
  intros H. destruct (eqIgnoreCase 33 c) eqn:E; [|reflexivity].
  pose proof (folded_class 33 c E) as F. rewrite H, orb_true_r in F.
  specialize (F eq_refl). subst c. discriminate H.
Qed.

Lemma figureReference_tail (m : JSString) :
  figureReference m -> exists c tail, m = c :: tail /\ noBang tail.
Proof.
  intros (a & t & word & -> & Hin & Ha & ws & n1 & b & n2 & c & ext & -> & Hext
            & Hws & Hd1 & _ & Hb & Hd2 & _ & Hc).
  apply sameIgnoringCase_cons in Ha as (c0 & a' & -> & _ & Ha).
  exists c0. eexists. split; [reflexivity|].
  assert (Ha' : noBang a').
  { apply (noBang_literal _ _ Ha).
    cbn [figureWords In] in Hin.
    destruct Hin as [<-|[<-|[<-|[<-|[]]]]]; repeat constructor. }
  assert (Hc' : noBang c).
  { apply (noBang_literal _ _ Hc).
    cbn [In] in Hext. destruct Hext as [<-|[<-|[]]]; repeat constructor. }
  cbn [app]. apply noBang_app; [exact Ha'|].
  apply noBang_app;
    [apply (noBang_class isWhiteSpace); [apply space_no_bang|exact Hws]|].
  apply noBang_app;
    [apply (noBang_class isDigit); [apply digit_no_bang|exact Hd1]|].
  apply noBang_app; [apply (noBang_literal _ _ Hb); repeat constructor|].
  apply noBang_app; [|exact Hc'].
  apply (noBang_class isDigit); [apply digit_no_bang|exact Hd2].
Qed.

Lemma figureAt_no_bang (c : CodeUnit) (s : JSString) :
  eqIgnoreCase 33 c = false -> figureAt (c :: s) = None.
Proof.
  intros H. unfold figureAt.
  replace (literal (lit "![") (c :: s)) with (@None JSString); [reflexivity|].
  symmetry. exact (literal_mismatch 33 (lit "[") c s H).
Qed.

Lemma figureStarts_noBang (x s : JSString) :
  noBang x -> figureStarts (x ++ s) = figureStarts s.
Proof.
  induction 1 as [|c x Hc _ IH]; [reflexivity|].
  cbn [app figureStarts]. now rewrite (figureAt_no_bang c (x ++ s) Hc), IH.
Qed.

Lemma figureMatches_count_upto (n : nat) (s : JSString) :
  length s <= n -> length (figureMatchesFrom 0 s) = figureStarts s.
Proof.
  revert s; induction n as [|n IH]; intros s Hn.
  - destruct s; [reflexivity|cbn [length] in Hn; lia].
  - destruct s as [|c s]; [reflexivity|].
    cbn [length] in Hn. cbn [figureMatchesFrom figureStarts].
    destruct (figureAt (c :: s)) as [rest|] eqn:E.
    + pose proof (figureAt_sound _ _ E) as (m & Em & Hm).
      destruct (figureReference_tail _ Hm) as (c' & tail & -> & Htail).
      cbn [app] in Em. injection Em as <- ->.
      cbn [length Nat.add]. f_equal.
      change (length (c :: tail ++ rest)) with (S (length (tail ++ rest))).
      rewrite length_app.
      replace (S (length tail + length rest) - length rest - 1) with (length tail)
        by lia.
      rewrite figureMatchesFrom_skip, (figureStarts_noBang _ _ Htail).
      apply IH. rewrite length_app in Hn. lia.
    + cbn [Nat.add]. apply IH. lia.
Qed.

Lemma figureMatches_count (s : JSString) :
  length (figureMatches s) = figureStarts s.
Proof. apply (figureMatches_count_upto (length s)), le_n. Qed.



End FigureReferences.

(** X14. The figure pattern matches exactly the references to figures. What
    it finds in a text are references to figures, one for every place of
    the text where a reference starts: no two references overlap, and
    none is passed over. It finds none exactly when the text holds
    none. *)
Theorem figure_matches_are_references (md : JSString) :
  (forall s rest, Regex.figureAt s = Some rest <->
                  exists m, s = m ++ rest /\ figureReference m)
  /\ Forall figureReference (Regex.figureMatches md)
  /\ length (Regex.figureMatches md) = figureStarts md
  /\ (Regex.figureMatches md = [] <->
      ~ exists before m after, md = before ++ m ++ after /\ figureReference m).
Proof.
  split; [|split; [apply figureMatchesFrom_references|split]].
  - intros s rest. split; [apply figureAt_sound|].
    intros (m & -> & Hm). now apply figureAt_complete.
  - apply figureMatches_count.
  - unfold Regex.figureMatches. rewrite figureMatches_none. split.
    + intros H (before & m & after & -> & Hm).
      pose proof (H before (m ++ after) eq_refl) as E'.
      pose proof (figureAt_complete _ after Hm) as E. congruence.
    + intros H before after ->.
      destruct (Regex.figureAt after) as [rest|] eqn:E; [|reflexivity].
      apply figureAt_sound in E as (m & -> & Hm).
      exfalso. apply H. now exists before, m, rest.
Qed.

Lemma figure_matches_are_references_witness :
  figureReference (figureRef 1) /\ figureStarts (figureRef 1 ++ figureRef 2) = 2.
Proof.
  split.
  - pose proof (proj1 (proj2 (figure_matches_are_references (figureRef 1)))) as H.
    change (Regex.figureMatches (figureRef 1)) with [figureRef 1] in H.
    exact (Forall_inv H).
  - rewrite <- (proj1 (proj2 (proj2 (figure_matches_are_references
                                       (figureRef 1 ++ figureRef 2))))).
    reflexivity.
Defined.


(** ** Text added to the markdown file *)

Section AddedText.








End AddedText.




(** ** The articles of the configuration *)

Section ConfigFacts.

Lemma eqString_spec (a b : JSString) : eqString a b = true <-> a = b.
Proof.
  revert b; induction a as [|x a IH]; intros [|y b]; cbn [eqString];
    try (split; [discriminate|discriminate]); [split; reflexivity|].
  rewrite andb_true_iff, N.eqb_eq, IH.
  split; [intros [-> ->]; reflexivity|intros E; now injection E].
Qed.

Lemma eqString_refl (a : JSString) : eqString a a = true.
Proof. now apply eqString_spec. Qed.

Lemma ownProperty_In (A : Type) (key : JSString) (object : list (JSString * A)) (v : A) :
  ownProperty A key object = Some v -> In (key, v) object.
Proof.
  induction object as [|[k x] rest IH]; [discriminate|].
  cbn [ownProperty]. destruct (eqString k key) eqn:E.
  - apply eqString_spec in E. intros H. injection H as ->. subst. now left.
  - intros H. right. now apply IH.
Qed.

Lemma ownProperty_None (A : Type) (key : JSString) (object : list (JSString * A)) :
  ownProperty A key object = None <-> ~ In key (map fst object).
Proof.
  induction object as [|[k x] rest IH]; [cbn; tauto|].
  cbn [ownProperty map fst In]. destruct (eqString k key) eqn:E.
  - apply eqString_spec in E. split; [discriminate|]. intros H. exfalso. auto.
  - rewrite IH. split; [|tauto]. intros H [H'|H']; [|auto].
    subst. rewrite eqString_refl in E. discriminate.
Qed.

Lemma existsb_eqString (key : JSString) (names : list JSString) :
  existsb (eqString key) names = true <-> In key names.
Proof.
  rewrite existsb_exists. split.
  - intros (x & Hx & E). apply eqString_spec in E. now subst.
  - intros H. exists key. split; [exact H|apply eqString_refl].
Qed.

End ConfigFacts.

Lemma ownProperty_ARTICLES (version : JSString) (entry : Config.Entry) :
  ownProperty _ version ARTICLES = Some entry <->
  In entry getAllArticles /\ Config.version entry = version.
Proof.
  split.
  - intros H. apply ownProperty_In in H.
    cbn in H. destruct H as [H|[H|[H|[]]]]; injection H as <- <-;
      (split; [cbn; tauto|reflexivity]).
  - intros [H <-]. cbn in H. destruct H as [<-|[<-|[<-|[]]]]; reflexivity.
Qed.

Lemma getArticle_configured (version : JSString) (entry : Config.Entry) :
  getArticle version = Returns (Configured entry) <->
  In entry getAllArticles /\ Config.version entry = version.
Proof.
  rewrite <- ownProperty_ARTICLES. unfold getArticle.
  destruct (ownProperty _ version ARTICLES) as [e|].
  - split; intros H; now injection H as ->.
  - destruct (existsb _ _); split; discriminate.
Qed.

Lemma getArticle_builtin (version name : JSString) :
  getArticle version = Returns (Builtin name) -> name = version.
Proof.
  unfold getArticle. destruct (ownProperty _ version ARTICLES); [discriminate|].
  destruct (existsb _ _); [|discriminate]. intros H. now injection H.
Qed.

(** X16. [getArticle] returns an entry exactly for the three versions of the
    configuration, and then the entry of that version, the one that
    [getAllArticles] lists at the place where [getAllVersions] lists the
    version. It throws for every other version, naming the three, unless
    the version is a name inherited from [Object.prototype]: then it
    returns what is no article. *)
Theorem getArticle_by_version (version : JSString) :
  (forall entry, getArticle version = Returns (Configured entry) <->
                 In entry getAllArticles /\ Config.version entry = version)
  /\ map Config.version getAllArticles = getAllVersions
  /\ ((exists e, getArticle version = Throws e) <->
      ~ In version getAllVersions /\ ~ In version objectPrototypeNames)
  /\ (forall e, getArticle version = Throws e ->
      e = UnknownVersion
            (lit "Unknown article version: " ++ version
               ++ lit ". Available: 0.0.0, 0.0.1, 0.0.2"))
  /\ (In version objectPrototypeNames -> getArticle version = Returns (Builtin version)).
Proof.
  assert (Hnone : ownProperty _ version ARTICLES = None <-> ~ In version getAllVersions)
    by apply ownProperty_None.
  split; [intros entry; apply getArticle_configured|].
  unfold getArticle.
  split; [reflexivity|split; [|split]].
  - destruct (ownProperty _ version ARTICLES) as [e|] eqn:E.
    + split; [intros [x H]; discriminate|]. intros [H _].
      apply Hnone in H. discriminate.
    + destruct (existsb (eqString version) objectPrototypeNames) eqn:Ex.
      * apply existsb_eqString in Ex. split; [intros [x H]; discriminate|tauto].
      * split; [|intros _; eexists; reflexivity].
        intros _. split; [now apply Hnone|].
        intros H. apply existsb_eqString in H. congruence.
  - intros e. destruct (ownProperty _ version ARTICLES); [discriminate|].
    destruct (existsb _ _); [discriminate|].
    intros H. injection H as <-. reflexivity.
  - intros H. assert (Hn : ~ In version getAllVersions).
    { intros Hv. cbn in Hv. destruct Hv as [<-|[<-|[<-|[]]]];
        cbn in H; repeat destruct H as [H|H]; try discriminate H; exact H. }
    apply Hnone in Hn. rewrite Hn.
    apply existsb_eqString in H. now rewrite H.
Qed.

Lemma getArticle_by_version_witness :
  getArticle (lit "toString") = Returns (Builtin (lit "toString"))
  /\ exists e, getArticle (lit "0.0.3") = Throws e.
Proof.
  split.
  - apply (proj2 (proj2 (proj2 (proj2 (getArticle_by_version (lit "toString")))))).
    unfold objectPrototypeNames. cbn [In]. tauto.
  - apply (proj2 (proj1 (proj2 (proj2 (getArticle_by_version (lit "0.0.3")))))).
    split; intros H; cbn in H;
      repeat (destruct H as [H|H]; [discriminate H|]); exact H.
Defined.


(** X17. Every article of the configuration gets exactly one image check, so
    a run on it makes at least one check and its pass rate is the
    quotient of the two counts: the guard of the division is never
    needed. *)
Theorem configured_run_has_checks
    (entry : Config.Entry) (w : WebContent) (md : JSString) :
  In entry getAllArticles ->
  let r := verifyMarkdownContent (articleOf entry) w md in
  imageChecks (articleOf entry) = 1
  /\ totalChecks r = total (contentChecks w md) + 1
  /\ 0 < totalChecks r
  /\ jsNumEq (passRate r) (jsDiv (passedChecks r) (totalChecks r)).
Proof.
  intros Hin. cbv zeta.
  assert (Hi : imageChecks (articleOf entry) = 1)
    by (cbn in Hin; destruct Hin as [<-|[<-|[<-|[]]]]; reflexivity).
  rewrite verifyMarkdownContent_stages.
  cbn [report totalChecks passedChecks passRate].
  rewrite checkImages_total, Hi.
  split; [reflexivity|]. split; [reflexivity|]. split; [lia|].
  replace (0 <? total (contentChecks w md) + 1) with true
    by (symmetry; apply Nat.ltb_lt; lia).
  destruct (total (contentChecks w md) + 1) eqn:E; [lia|].
  cbn [jsDiv jsNumEq].
  destruct (passed (checkImages (articleOf entry) md (contentChecks w md)));
    apply Qeq_refl.
Qed.

Lemma configured_run_has_checks_witness :
  0 < totalChecks (verifyMarkdownContent (articleOf article_0_0_2) emptyContent []).
Proof.
  assert (H : In article_0_0_2 getAllArticles) by (right; right; left; reflexivity).
  exact (proj1 (proj2 (proj2 (configured_run_has_checks article_0_0_2 emptyContent
                                [] H)))).
Defined.


(** ** The arguments of the command line *)

Section ParseArgs.

Lemma later_noOptions (o : Cli.Options) : later o noOptions = o.
Proof. destruct o as [v a b]. unfold later. cbn. now rewrite !orb_false_r. Qed.

Lemma parseArg_later (o o' : Cli.Options) (arg : JSString) :
  parseArg (later o o') arg = later o (parseArg o' arg).
Proof.
  unfold parseArg.
  destruct (eqString arg (lit "--all")).
  - unfold later. cbn. now rewrite orb_true_r.
  - destruct (eqString arg (lit "--verbose") || eqString arg (lit "-v"))%bool.
    + unfold later. cbn. now rewrite orb_true_r.
    + destruct (negb (isOption arg)); reflexivity.
Qed.

Lemma fold_parseArg (args : list JSString) (o : Cli.Options) :
  fold_left parseArg args o = later o (parseArgs args).
Proof.
  unfold parseArgs.
  induction args as [|arg args IH] using rev_ind.
  - cbn. now rewrite later_noOptions.
  - rewrite !fold_left_app. cbn [fold_left]. rewrite IH.
    apply parseArg_later.
Qed.

End ParseArgs.

(** X18. The options of a command line are those of its two halves: an option
    given anywhere holds, and the last version given wins. *)
Theorem parseArgs_app (first second : list JSString) :
  parseArgs (first ++ second) = later (parseArgs first) (parseArgs second).
Proof.
  unfold parseArgs at 1. rewrite fold_left_app.
  apply fold_parseArg.
Qed.

Section ParseArgsReads.

Lemma parseArg_single (arg : JSString) :
  parseArg noOptions arg
  = {| Cli.version := if isOption arg then None else Some arg;
       Cli.all := eqString arg (lit "--all");
       Cli.verbose := (eqString arg (lit "--verbose") || eqString arg (lit "-v"))%bool |}.
Proof.
  unfold parseArg, noOptions. cbn [Cli.version Cli.all Cli.verbose].
  destruct (eqString arg (lit "--all")) eqn:A1.
  - apply eqString_spec in A1. subst arg. reflexivity.
  - destruct (eqString arg (lit "--verbose")) eqn:A2.
    + apply eqString_spec in A2. subst arg. reflexivity.
    + destruct (eqString arg (lit "-v")) eqn:A3.
      * apply eqString_spec in A3. subst arg. reflexivity.
      * cbn [orb]. now destruct (isOption arg).
Qed.

Lemma parseArgs_cons (arg : JSString) (args : list JSString) :
  parseArgs (arg :: args) = later (parseArg noOptions arg) (parseArgs args).
Proof. unfold parseArgs at 1. cbn [fold_left]. apply fold_parseArg. Qed.

Lemma noOptions_later (o : Cli.Options) : later noOptions o = o.
Proof. destruct o as [[v|] a b]; reflexivity. Qed.

Lemma last_Some (A : Type) (l : list A) :
  last (map Some l) None = None -> l = [].
Proof.
  induction l as [|x l IH]; [reflexivity|].
  cbn [map]. destruct l as [|y l]; [discriminate|].
  intros H. apply IH in H. discriminate.
Qed.

Lemma unread_noOptions (arg : JSString) :
  isRead arg = false -> parseArg noOptions arg = noOptions.
Proof.
  unfold isRead. rewrite parseArg_single, !orb_false_iff, negb_false_iff.
  intros [[[-> ->] ->] ->]. reflexivity.
Qed.

End ParseArgsReads.

(** X19. What [parseArgs] finds: [--all] and [--verbose] or [-v] wherever they
    stand, as the version the last argument that does not start with a
    hyphen; any other argument that starts with a hyphen is passed over
    without a word. *)
Theorem parseArgs_reads (args : list JSString) :
  (Cli.all (parseArgs args) = true <-> In (lit "--all") args)
  /\ (Cli.verbose (parseArgs args) = true <->
      In (lit "--verbose") args \/ In (lit "-v") args)
  /\ Cli.version (parseArgs args)
     = last (map Some (filter (fun a => negb (isOption a)) args)) None
  /\ parseArgs (filter isRead args) = parseArgs args.
Proof.
  induction args as [|arg args (Ha & Hv & Hver & Hf)].
  - cbn. repeat split; try discriminate; tauto.
  - rewrite parseArgs_cons, parseArg_single.
    cbn [later Cli.all Cli.verbose Cli.version In].
    rewrite !orb_true_iff, Ha, Hv, !eqString_spec.
    split; [|split; [|split]].
    + split; intros [H|H]; auto.
    + split; [intros [[H|H]|[H|H]]|intros [[H|H]|[H|H]]]; auto.
    + cbn [filter]. destruct (isOption arg); cbn [negb map].
      * rewrite Hver. now destruct (last _ None).
      * rewrite Hver.
        destruct (map Some (filter (fun a => negb (isOption a)) args)) as [|x l] eqn:E;
          [reflexivity|].
        change (last (Some arg :: x :: l) None) with (last (x :: l) None).
        destruct (last (x :: l) None) eqn:El; [reflexivity|].
        rewrite <- E in El. apply last_Some in El. rewrite El in E. discriminate.
    + cbn [filter]. destruct (isRead arg) eqn:R.
      * rewrite parseArgs_cons, Hf, parseArg_single. reflexivity.
      * rewrite Hf. rewrite <- parseArg_single, (unread_noOptions arg R).
        symmetry. apply noOptions_later.
Qed.

(** ** The run of the script *)

Section ScriptFacts.

Variable ROOT_DIR : JSString.
Variable join : JSString -> JSString -> JSString.
Variable existsSync : JSString -> bool.
Variable readFileSync : JSString -> Outcome JSString.
Variable extractWebPageContent : Config.Entry -> bool -> Outcome WebContent.

Lemma verifyEach_all (articles : list Value) (verbose : bool) :
  forallb (fun ok => ok)
    (verifyEach ROOT_DIR join existsSync readFileSync extractWebPageContent articles verbose)
  = true
  <-> forall a, In a articles ->
       verifyArticle ROOT_DIR join existsSync readFileSync extractWebPageContent a verbose
       = Returns true.
Proof.
  unfold verifyEach. rewrite forallb_forall. split.
  - intros H a Ha. specialize (H _ (in_map _ _ _ Ha)). cbv beta in H.
    destruct (verifyArticle _ _ _ _ _ a verbose); [now subst|discriminate].
  - intros H ok Hok. apply in_map_iff in Hok as (a & <- & Ha).
    specialize (H a Ha). now rewrite H.
Qed.

End ScriptFacts.

(** X20. [verifyArticle] answers [false] as soon as the markdown file of the
    article is not there, whatever the page holds; it answers [true]
    exactly when the file is there, the page and the file can be read,
    and the report of the comparison is a success. *)
Theorem verifyArticle_answers
    (ROOT_DIR : JSString) (join : JSString -> JSString -> JSString)
    (existsSync : JSString -> bool)
    (readFileSync : JSString -> Outcome JSString)
    (extractWebPageContent : Config.Entry -> bool -> Outcome WebContent)
    (entry : Config.Entry) (verbose : bool) :
  let path := markdownPath ROOT_DIR join entry in
  let answer :=
    verifyArticle ROOT_DIR join existsSync readFileSync extractWebPageContent
      (Configured entry) verbose in
  (existsSync path = false -> answer = Returns false)
  /\ (answer = Returns true <->
      existsSync path = true
      /\ exists webContent markdownText,
           extractWebPageContent entry verbose = Returns webContent
           /\ readFileSync path = Returns markdownText
           /\ success (verifyMarkdownContent (articleOf entry) webContent markdownText)
              = true).
Proof.
  cbv zeta. unfold verifyArticle.
  destruct (existsSync (markdownPath ROOT_DIR join entry)) eqn:E; cbn [negb].
  - split; [discriminate|].
    destruct (extractWebPageContent entry verbose) as [w|e].
    + destruct (readFileSync (markdownPath ROOT_DIR join entry)) as [md|e].
      * split.
        -- intros H. injection H as H. split; [reflexivity|]. now exists w, md.
        -- intros [_ (w' & md' & Hw & Hmd & H)].
           injection Hw as <-. injection Hmd as <-. now rewrite H.
      * split; [discriminate|]. intros [_ (w' & md' & _ & Hmd & _)]. discriminate.
    + split; [discriminate|]. intros [_ (w' & md' & Hw & _)]. discriminate.
  - split; [reflexivity|]. split; [discriminate|]. now intros [H _].
Qed.

Lemma verifyArticle_answers_witness :
  verifyArticle (lit "/repo") sampleJoin noFile unreadable offline
    (Configured article_0_0_0) false
  = Returns false.
Proof.
  exact (proj1 (verifyArticle_answers (lit "/repo") sampleJoin noFile unreadable
                  offline article_0_0_0 false)
           eq_refl).
Defined.


(** X21. The exit code of [main] is 0 exactly when the help is shown (neither
    [--all] nor a version that is not empty), or [--all] is given and
    every article of the configuration verifies, or the version given
    is one of the configuration and its article verifies. With [--all]
    the three articles are all verified, whatever the results and
    whatever version is given; a version that is not known is an error
    before anything is verified. *)
Theorem main_exit_code
    (ROOT_DIR : JSString) (join : JSString -> JSString -> JSString)
    (existsSync : JSString -> bool)
    (readFileSync : JSString -> Outcome JSString)
    (extractWebPageContent : Config.Entry -> bool -> Outcome WebContent)
    (args : list JSString) :
  let verify := verifyArticle ROOT_DIR join existsSync readFileSync extractWebPageContent in
  let run := main ROOT_DIR join existsSync readFileSync extractWebPageContent args in
  let options := parseArgs args in
  (snd run = 0 <->
     (Cli.all options = false /\ versionGiven options = None)
     \/ (Cli.all options = true
         /\ forall entry, In entry getAllArticles ->
                          verify (Configured entry) (Cli.verbose options) = Returns true)
     \/ (Cli.all options = false
         /\ exists entry, In entry getAllArticles
              /\ versionGiven options = Some (Config.version entry)
              /\ verify (Configured entry) (Cli.verbose options) = Returns true))
  /\ snd run <= 1
  /\ (Cli.all options = true -> length (fst run) = 3)
  /\ (Cli.all options = false ->
      forall version, versionGiven options = Some version ->
        ~ In version getAllVersions -> ~ In version objectPrototypeNames ->
        run = ([], 1)).
Proof.
  cbv zeta. unfold main.
  destruct (Cli.all (parseArgs args)) eqn:Ea.
  - split; [|split; [|split]].
    + cbn [snd].
      destruct (forallb _ _) eqn:F.
      * pose proof (proj1 (verifyEach_all _ _ _ _ _ _ _) F) as F'; clear F; rename F' into F. split; [|reflexivity]. intros _.
        right. left. split; [reflexivity|]. intros entry He.
        apply F, in_map, He.
      * split; [discriminate|]. intros [[H _]|[[_ H]|[H _]]]; try discriminate.
        assert (F' : forallb (fun ok => ok)
                       (verifyEach ROOT_DIR join existsSync readFileSync
                          extractWebPageContent (map Configured getAllArticles)
                          (Cli.verbose (parseArgs args))) = true).
        { apply (proj2 (verifyEach_all _ _ _ _ _ _ _)). intros a Ha.
          apply in_map_iff in Ha as (e & <- & He). now apply H. }
        rewrite F' in F. discriminate.
    + cbn [snd]. destruct (forallb _ _); lia.
    + intros _. cbn [fst]. unfold verifyEach. now rewrite !length_map.
    + discriminate.
  - destruct (versionGiven (parseArgs args)) as [version|] eqn:Ev.
    + destruct (getArticle version) as [article|e] eqn:Eg.
      * split; [|split; [|split]].
        -- cbn [snd]. destruct (forallb _ _) eqn:F.
           ++ pose proof (proj1 (verifyEach_all _ _ _ _ _ _ _) F) as F'; clear F; rename F' into F. split; [|reflexivity]. intros _.
              right. right. split; [reflexivity|].
              specialize (F article (or_introl eq_refl)).
              destruct article as [entry|name]; [|discriminate F].
              apply getArticle_configured in Eg as [He Hv].
              exists entry. now rewrite Hv.
           ++ split; [discriminate|].
              intros [[_ H]|[[H _]|[_ (entry & He & Hv & H)]]]; try discriminate.
              injection Hv as ->.
              assert (Eg' : getArticle (Config.version entry)
                            = Returns (Configured entry))
                by now apply getArticle_configured.
              rewrite Eg' in Eg. injection Eg as <-.
              cbn [verifyEach map forallb] in F. rewrite H in F. discriminate.
        -- cbn [snd]. destruct (forallb _ _); lia.
        -- discriminate.
        -- intros _ v Hv Hn Hp. injection Hv as <-.
           destruct article as [entry|name].
           ++ apply getArticle_configured in Eg as [He Hv].
              exfalso. apply Hn. rewrite <- Hv.
              cbn in He. destruct He as [<-|[<-|[<-|[]]]]; cbn; tauto.
           ++ pose proof (getArticle_builtin _ _ Eg) as ->.
              exfalso. apply Hp. unfold getArticle in Eg.
              destruct (ownProperty _ version ARTICLES); [discriminate|].
              destruct (existsb (eqString version) objectPrototypeNames) eqn:Ex;
                [|discriminate]. now apply existsb_eqString.
      * split; [|split; [|split]].
        -- cbn [snd]. split; [discriminate|].
           intros [[_ H]|[[H _]|[_ (entry & He & Hv & H)]]]; try discriminate.
           injection Hv as ->.
           assert (Eg' : getArticle (Config.version entry)
                         = Returns (Configured entry))
             by now apply getArticle_configured.
           rewrite Eg' in Eg. discriminate.
        -- cbn [snd]. lia.
        -- discriminate.
        -- reflexivity.
    + split; [|split; [|split]].
      * cbn [snd]. split; [intros _; now left|reflexivity].
      * cbn [snd]. lia.
      * discriminate.
      * discriminate.
Qed.

Lemma main_exit_code_witness :
  main (lit "/repo") sampleJoin noFile unreadable offline [lit "0.0.3"; lit "-v"]
  = ([], 1).
Proof.
  apply (proj2 (proj2 (proj2 (main_exit_code (lit "/repo") sampleJoin noFile
                                unreadable offline [lit "0.0.3"; lit "-v"])))
           eq_refl (lit "0.0.3") eq_refl);
    intros H; cbn in H;
    repeat (destruct H as [H|H]; [discriminate H|]); exact H.
Defined.

(** * C3: normalizing twice *)

Section Nowhere.

Variable m : JSString -> bool.



End Nowhere.

(** ** Texts with parts replaced *)

Section Derives.

Variable F : CodeUnit -> bool.





End Derives.


(** ** What is matched nowhere in a text is matched nowhere in a result *)

Section Window.

Variable F : CodeUnit -> bool.
Variable m : JSString -> bool.
Variable n : nat.

Hypothesis m_local : forall t t', firstn n t = firstn n t' -> m t = m t'.
Hypothesis m_length : forall t, m t = true -> n <= length t.
Hypothesis m_class : forall t, m t = true -> every (fun c => negb (F c)) (firstn n t).
Hypothesis n_positive : 0 < n.






End Window.

(** ** The windows of the patterns *)

Section Patterns.

Variable F : CodeUnit -> bool.
Variables rel eqc : CodeUnit -> CodeUnit -> bool.
Variable pat : JSString.

Hypothesis pat_class : forall q c, In q pat -> rel q c = true -> F c = false.
Hypothesis pat_not_empty : pat <> [].














End Patterns.



(** ** The lower case and the patterns *)

Section Lowering.

Variables rel rel' : CodeUnit -> CodeUnit -> bool.


Variable pat : JSString.
Hypothesis pat_unit :
  forall q c d, In q pat -> lowerUnit c = [d] -> rel q d = true -> rel' q c = true.
Hypothesis pat_combining : forall q, In q pat -> rel q 0x307%N = false.
Hypothesis pat_last : rel (last pat 0%N) 0x69%N = false.
Hypothesis pat_not_empty : pat <> [].


End Lowering.







(** ** Spaced texts *)

Section SpacedSteps.








End SpacedSteps.

(** ** The first pass *)


Section FirstPass.

Variable s : JSString.

Hypothesis no_invisible : every (fun c => negb (isInvisible c)) s.
Hypothesis no_dollar : every (fun c => negb (N.eqb c dollar)) s.







End FirstPass.


Section SecondPass.

Variable s : JSString.

Hypothesis no_invisible : every (fun c => negb (isInvisible c)) s.
Hypothesis no_dollar : every (fun c => negb (N.eqb c dollar)) s.


End SecondPass.

Section Twice.

Variable s : JSString.

Hypothesis no_invisible : every (fun c => negb (isInvisible c)) s.
Hypothesis no_dollar : every (fun c => negb (N.eqb c dollar)) s.



End Twice.



Example normalize_lowerEscapes :
  normalizeText lowerEscapes
  = lit "for a x b -> c, x" ++ [0xB2%N] ++ lit " " ++ [0x2208%N] ++ lit " "
      ++ [0x2115%N; 0x2080%N] ++ lit ": it's so.".
Proof. vm_compute. reflexivity. Qed.

